(** * apiserver/model.py: ranking queries and bucket accessors

    A shallow embedding of [apiserver/apiserver/model.py].  The module binds
    the reflected tables, composes the ranking selects (global ranking,
    hackathon ranking, the per-user summaries) and hands out object-storage
    buckets.

    - A table is the list of its rows, in backing-row order.
    - A select is kept as what it denotes once the caller executes it: a
      function from the database and the session's user variables to the
      rows it yields and the session it leaves behind.  The session is
      threaded through because the ranking selects number their rows with
      the MySQL user variable [@variable].
    - Python side effects of the builders and accessors (standard output,
      storage clients, bucket requests, exceptions) live in the state and
      error monad [py]. *)

From Stdlib Require Import ZArith String.
From stdpp Require Import base option list sorting gmap strings.

Local Open Scope string_scope.
Local Open Scope Z_scope.

(** ** The reflected tables

    Only the columns [model.py] names are kept.  [mu] and [score] are
    numeric columns; the queries only compare, order and maximise them, so
    they are integers here. *)

Module Bot.
Record t := mk {
  user_id : Z;
  id : Z;
  mu : Z;
  score : Z;
  games_played : Z;
  version_number : Z;
  language : option string;
}.
End Bot.

Module User.
Record t := mk {
  id : Z;
  username : string;
  player_level : string;
  organization_id : option Z;
  country_code : option string;
  country_subdivision_code : option string;
  email : option string;
}.
End User.

Module Organization.
Record t := mk {
  id : Z;
  organization_name : string;
}.
End Organization.

Module HackathonParticipant.
Record t := mk {
  hackathon_id : Z;
  user_id : Z;
}.
End HackathonParticipant.

Record database := Database {
  bots : list Bot.t;
  users : list User.t;
  organizations : list Organization.t;
  hackathon_participants : list HackathonParticipant.t;
}.

(** ** SQL building blocks *)

(** The user variables of one connection; an unset variable reads NULL. *)
Abbreviation session := (gmap string Z).

(** [@v := e]: assigning NULL unsets the variable. *)
Definition assign (v : string) (e : option Z) (σ : session) : session :=
  match e with
  | Some z => <[v := z]> σ
  | None => delete v σ
  end.

(** A select with an alias, as the caller will execute it. *)
Record selectable (A : Type) := Alias {
  alias_name : string;
  execute : database → session → list A * session;
}.
Arguments Alias {A} _ _.
Arguments alias_name {A} _.
Arguments execute {A} _ _ _.

(** [(SELECT @v:=0) AS rn]: a one-row derived table whose evaluation resets
    the counter.  Cross-joining it leaves the other rows as they are. *)
Definition rn (v : string) (σ : session) : session := assign v (Some 0) σ.

(** [ORDER BY score DESC]. *)
Definition score_desc {A} (score : A → Z) : relation A :=
  λ a b, score b ≤ score a.

Global Instance score_desc_dec {A} (score : A → Z) :
  RelDecision (score_desc score).
Proof. intros a b. unfold score_desc. apply _. Defined.

Definition order_by_desc {A} (score : A → Z) (rows : list A) : list A :=
  merge_sort (score_desc score) rows.

(** A select list that holds [(@v:=@v + 1)], evaluated row by row in the
    order of the rows it is given. *)
Fixpoint select_counting {A B} (v : string) (mk : option Z → A → B)
    (rows : list A) (σ : session) : list B * session :=
  match rows with
  | [] => ([], σ)
  | a :: rest =>
      let r := (λ x, x + 1) <$> σ !! v in
      let '(out, σ') := select_counting v mk rest (assign v r σ) in
      (mk r a :: out, σ')
  end.

(** [a JOIN b ON on]. *)
Definition join {A B} (on : A → B → bool) (l : list A) (r : list B)
    : list (A * B) :=
  a ← l; (λ b, (a, b)) <$> filter (λ b, on a b) r.

(** [a LEFT OUTER JOIN b ON on]: a row without a match is kept once, padded
    with NULLs. *)
Definition outerjoin {A B} (on : A → B → bool) (l : list A) (r : list B)
    : list (A * option B) :=
  a ← l;
  match filter (λ b, on a b) r with
  | [] => [(a, None)]
  | m => (λ b, (a, Some b)) <$> m
  end.

(** [GROUP BY key]: the groups in order of first appearance. *)
Definition group_by {A} `{EqDecision K} (key : A → K) (rows : list A)
    : list (list A) :=
  (λ k, filter (λ a, key a = k) rows)
    <$> remove_dups (key <$> rows).

(** Aggregates skip NULLs; over no value at all they are NULL, except
    [count()] without a column, which counts rows. *)
Definition count_star {A} (rows : list A) : Z := Z.of_nat (length rows).

Definition non_null {A} (l : list (option A)) : list A := omap id l.

Definition agg (f : Z → Z → Z) (l : list (option Z)) : option Z :=
  match non_null l with
  | [] => None
  | x :: xs => Some (foldl f x xs)
  end.

Definition sum_ := agg Z.add.
Definition max_ := agg Z.max.
Definition min_ := agg Z.min.

Definition coalesce (x : option Z) (d : Z) : Z := default d x.

(** ** The ranking selects *)

Module RankedBot.
Record t := mk {
  bot_rank : option Z;
  user_id : Z;
  bot_id : Z;
  mu : Z;
  score : Z;
  games_played : Z;
  version_number : Z;
  language : option string;
}.

Definition of_bot (r : option Z) (b : Bot.t) : t :=
  mk r (Bot.user_id b) (Bot.id b) (Bot.mu b) (Bot.score b)
     (Bot.games_played b) (Bot.version_number b) (Bot.language b).

(** The bot row a ranked row was selected from. *)
Definition bot (r : t) : Bot.t :=
  Bot.mk (user_id r) (bot_id r) (mu r) (score r)
         (games_played r) (version_number r) (language r).
End RankedBot.

Definition ranked_bots_query (variable alias : option string)
    : selectable RankedBot.t :=
  let v := default "rank" variable in
  Alias (default "ranked_bots" alias) (λ db σ,
    select_counting v RankedBot.of_bot
      (order_by_desc Bot.score (bots db)) (rn v σ)).

(** The module-level [ranked_bots = ranked_bots_query()]. *)
Definition ranked_bots : selectable RankedBot.t := ranked_bots_query None None.

(** ** Python effects *)

Inductive exn :=
  | IndexError
  | NotFound (bucket_name : string).

Inductive outcome (A : Type) :=
  | Return (a : A)
  | Raise (e : exn).
Arguments Return {A} _.
Arguments Raise {A} _.

(** What [print(str(q))] leaves on standard output: the SQL text of the
    select [q] and a newline.  The text comes out of SQLAlchemy's compiler;
    it is kept here by the alias of the select it renders. *)
Inductive output := SqlText (alias : string).

(** [google.cloud.storage]: a client is a handle bound to a project, and
    building one sends nothing; [get_bucket] is the request, and it is the
    call that can fail. *)
Module Storage.
Record Client := mk_client { project : string; serial : nat }.
Record Bucket := mk_bucket { name : string; client : Client }.
End Storage.

Record world := World {
  stdout : list output;
  remote_buckets : list string;
  clients : list Storage.Client;
  requests : list (Storage.Client * string);
}.

Definition py (A : Type) : Type := world → outcome A * world.

Global Instance py_ret : MRet py := λ A a w, (Return a, w).

Global Instance py_bind : MBind py := λ A B f m w,
  match m w with
  | (Return a, w') => f a w'
  | (Raise e, w') => (Raise e, w')
  end.

Definition raise {A} (e : exn) : py A := λ w, (Raise e, w).

Definition print (o : output) : py unit := λ w,
  (Return (),
   World (stdout w ++ [o]) (remote_buckets w) (clients w) (requests w)).

(** [gcloud_storage.Client(project=p)]. *)
Definition Client (p : string) : py Storage.Client := λ w,
  let c := Storage.mk_client p (length (clients w)) in
  (Return c,
   World (stdout w) (remote_buckets w) (clients w ++ [c]) (requests w)).

(** [client.get_bucket(name)]. *)
Definition get_bucket (c : Storage.Client) (name : string)
    : py Storage.Bucket := λ w,
  let w' := World (stdout w) (remote_buckets w) (clients w)
                  (requests w ++ [(c, name)]) in
  if bool_decide (name ∈ remote_buckets w)
  then (Return (Storage.mk_bucket name c), w')
  else (Raise (NotFound name), w').

(** [l[k]] on a Python list: a negative index counts from the end. *)
Definition getitem {A} (l : list A) (k : Z) : py A :=
  let n := Z.of_nat (length l) in
  let i := if k <? 0 then k + n else k in
  if (0 <=? i) && (i <? n)
  then match l !! Z.to_nat i with
       | Some a => mret a
       | None => raise IndexError
       end
  else raise IndexError.

(** ** The hackathon ranking *)

Module HackathonRankedBot.
Record t := mk {
  local_rank : option Z;
  user_id : Z;
  bot_id : Z;
  mu : Z;
  score : Z;
  games_played : Z;
  version_number : Z;
  language : option string;
}.

Definition of_bot (r : option Z) (b : Bot.t) : t :=
  mk r (Bot.user_id b) (Bot.id b) (Bot.mu b) (Bot.score b)
     (Bot.games_played b) (Bot.version_number b) (Bot.language b).

(** The bot row a ranked row was selected from. *)
Definition bot (r : t) : Bot.t :=
  Bot.mk (user_id r) (bot_id r) (mu r) (score r)
         (games_played r) (version_number r) (language r).
End HackathonRankedBot.

(** The ON clause of [bots.join(hackathon_participants, ...)]. *)
Definition participates (hackathon_id : Z) (b : Bot.t)
    (p : HackathonParticipant.t) : bool :=
  (Bot.user_id b =? HackathonParticipant.user_id p)
  && (HackathonParticipant.hackathon_id p =? hackathon_id).

(** [temptable] selects the bot columns out of the join, so its rows are
    bot rows again. *)
Definition hackathon_ranked_bots_query (hackathon_id : Z)
    (variable alias : option string) : py (selectable HackathonRankedBot.t) :=
  let v := default "hrank" variable in
  let temptable := Alias "temptable" (λ db σ,
    (order_by_desc Bot.score
       (fst <$> join (participates hackathon_id)
                  (bots db) (hackathon_participants db)),
     rn v σ)) in
  print (SqlText (alias_name temptable));;
  mret (Alias (default "hackathon_ranked_bots" alias) (λ db σ,
    let '(rows, σ') := execute temptable db σ in
    select_counting v HackathonRankedBot.of_bot rows σ')).

(** ** The composite views *)

Definition owned_by (u : User.t) (r : RankedBot.t) : bool :=
  RankedBot.user_id r =? User.id u.

(** [organizations.c.id == users.c.organization_id]; a NULL
    [organization_id] matches nothing. *)
Definition organization_of (u : User.t) (o : Organization.t) : bool :=
  match User.organization_id u with
  | Some oid => Organization.id o =? oid
  | None => false
  end.

Module AllUsers.
Record t := mk {
  user_id : Z;
  username : string;
  player_level : string;
  organization_id : option Z;
  organization_name : option string;
  country_code : option string;
  country_subdivision_code : option string;
  email : option string;
  num_bots : Z;
  num_games : Z;
  num_submissions : Z;
  score : Z;
  rank : option Z;
}.
End AllUsers.

(** One output row of [all_users] per group; the columns that are not
    aggregated are read off the group's first row. *)
Definition all_users_row
    (g : list (User.t * option RankedBot.t * option Organization.t))
    : option AllUsers.t :=
  '(u, _, o) ← head g;
  let col {B} (f : RankedBot.t → option B) : list (option B) :=
    (λ '(_, r, _), r ≫= f) <$> g in
  Some (AllUsers.mk
    (User.id u) (User.username u) (User.player_level u)
    (User.organization_id u) (Organization.organization_name <$> o)
    (User.country_code u) (User.country_subdivision_code u) (User.email u)
    (coalesce (Some (count_star g)) 0)
    (coalesce (sum_ (col (λ r, Some (RankedBot.games_played r)))) 0)
    (coalesce (sum_ (col (λ r, Some (RankedBot.version_number r)))) 0)
    (coalesce (max_ (col (λ r, Some (RankedBot.score r)))) 0)
    (min_ (col RankedBot.bot_rank))).

Definition all_users : selectable AllUsers.t :=
  Alias "all_users" (λ db σ,
    let '(rb, σ') := execute ranked_bots db σ in
    let from :=
      outerjoin (λ '(u, _) o, organization_of u o)
        (outerjoin owned_by (users db) rb) (organizations db) in
    (omap all_users_row (group_by (λ '(u, _, _), User.id u) from), σ')).

Module RankedUser.
Record t := mk {
  user_id : Z;
  username : string;
  rank : option Z;
}.
End RankedUser.

Definition ranked_users_row (g : list (User.t * RankedBot.t))
    : option RankedUser.t :=
  '(u, _) ← head g;
  Some (RankedUser.mk (User.id u) (User.username u)
          (min_ ((λ '(_, r), RankedBot.bot_rank r) <$> g))).

Definition ranked_users_query (alias : option string)
    : selectable RankedUser.t :=
  let ranked_bots := ranked_bots_query (Some "rurank") None in
  Alias (default "ranked_users" alias) (λ db σ,
    let '(rb, σ') := execute ranked_bots db σ in
    let from := join owned_by (users db) rb in
    (omap ranked_users_row (group_by (λ '(u, _), User.id u) from), σ')).

Definition total_ranked_bots (db : database) : Z :=
  count_star (filter (λ b, Bot.games_played b > 0) (bots db)).

Module HackathonRankedBotUser.
Record t := mk {
  user_id : Z;
  username : string;
  player_level : string;
  organization_id : option Z;
  organization_name : option string;
  country_code : option string;
  country_subdivision_code : option string;
  bot_id : Z;
  num_games : Z;
  num_submissions : Z;
  mu : Z;
  score : Z;
  language : option string;
  global_rank : option Z;
  local_rank : option Z;
}.
End HackathonRankedBotUser.

(** The ON clause that ties a local ranking row to a global one. *)
Definition same_bot (ru : RankedBot.t * User.t) (l : HackathonRankedBot.t)
    : bool :=
  (HackathonRankedBot.user_id l =? RankedBot.user_id ru.1)
  && (HackathonRankedBot.bot_id l =? RankedBot.bot_id ru.1).

(** The FROM clause and column list of [hackathon_ranked_bots_users_query],
    over the rows its four sources yield. *)
Definition hackathon_ranked_bots_users_rows
    (ranked_bots : list RankedBot.t) (users : list User.t)
    (local_rank : list HackathonRankedBot.t)
    (organizations : list Organization.t)
    : list HackathonRankedBotUser.t :=
  (λ '(r, u, l, o),
     HackathonRankedBotUser.mk
       (User.id u) (User.username u) (User.player_level u)
       (User.organization_id u) (Organization.organization_name <$> o)
       (User.country_code u) (User.country_subdivision_code u)
       (RankedBot.bot_id r) (RankedBot.games_played r)
       (RankedBot.version_number r) (RankedBot.mu r) (RankedBot.score r)
       (RankedBot.language r)
       (RankedBot.bot_rank r) (HackathonRankedBot.local_rank l))
  <$> outerjoin (λ '(_, u, _) o, organization_of u o)
        (join same_bot
           (join (λ r u, owned_by u r) ranked_bots users) local_rank)
        organizations.

Definition hackathon_ranked_bots_users_query (hackathon_id : Z)
    (alias : option string) : py (selectable HackathonRankedBotUser.t) :=
  local_rank ← hackathon_ranked_bots_query hackathon_id None
                  (Some "local_rank");
  mret (Alias (default "hackathon_ranked_bots_users" alias) (λ db σ,
    let '(rb, σ1) := execute ranked_bots db σ in
    let '(lr, σ2) := execute local_rank db σ1 in
    (hackathon_ranked_bots_users_rows rb (users db) lr (organizations db),
     σ2))).

(** ** Bucket accessors *)

(** Modelled from the spec: the [config] module is imported by [model.py]
    but is not part of the sources.  It provides the project identity, one
    bucket name each for compilation input, compiled bots and error logs,
    and several replay bucket names selected by an integer index. *)
Module Config.
Record t := mk {
  GCLOUD_PROJECT : string;
  GCLOUD_COMPILATION_BUCKET : string;
  GCLOUD_BOT_BUCKET : string;
  GCLOUD_REPLAY_BUCKETS : list string;
  GCLOUD_ERROR_LOG_BUCKET : string;
}.
End Config.

Section accessors.
Variable config : Config.t.

Definition get_storage_client : py Storage.Client :=
  Client (Config.GCLOUD_PROJECT config).

Definition get_compilation_bucket : py Storage.Bucket :=
  c ← get_storage_client;
  get_bucket c (Config.GCLOUD_COMPILATION_BUCKET config).

Definition get_bot_bucket : py Storage.Bucket :=
  c ← get_storage_client;
  get_bucket c (Config.GCLOUD_BOT_BUCKET config).

(** The callee [get_storage_client().get_bucket] is evaluated before the
    argument [config.GCLOUD_REPLAY_BUCKETS[kind]]. *)
Definition get_replay_bucket (kind : option Z) : py Storage.Bucket :=
  let kind := default 0 kind in
  c ← get_storage_client;
  name ← getitem (Config.GCLOUD_REPLAY_BUCKETS config) kind;
  get_bucket c name.

Definition get_error_log_bucket : py Storage.Bucket :=
  c ← get_storage_client;
  get_bucket c (Config.GCLOUD_ERROR_LOG_BUCKET config).
End accessors.

(** All submitted bots, ranked, with user info. *)
Module RankedBotUser.
Record t := mk {
  user_id : Z;
  username : string;
  player_level : string;
  organization_id : option Z;
  organization_name : option string;
  country_code : option string;
  country_subdivision_code : option string;
  email : option string;
  bot_id : Z;
  num_games : Z;
  num_submissions : Z;
  mu : Z;
  score : Z;
  language : option string;
  rank : option Z;
}.
End RankedBotUser.



(** ** Reference notions the properties are stated against *)

Global Instance hackathon_participant_eq_dec :
  EqDecision HackathonParticipant.t.
Proof. solve_decision. Defined.

(** The bots whose owning user is registered for the hackathon. *)
Definition participant_bots (hackathon_id : Z) (db : database) : list Bot.t :=
  filter (λ b, HackathonParticipant.mk hackathon_id (Bot.user_id b)
               ∈ hackathon_participants db) (bots db).

(** The world a call leaves behind when all it did was print [o]. *)
Definition printed (o : output) (w : world) : world :=
  World (stdout w ++ [o]) (remote_buckets w) (clients w) (requests w).

(** The global ranking and the ranking local to a hackathon, as their
    builders' selects yield them on a fresh session. *)
Definition global_ranking (db : database) : list RankedBot.t :=
  (execute ranked_bots db ∅).1.

Definition local_ranking (hackathon_id : Z) (db : database)
    : list HackathonRankedBot.t :=
  match hackathon_ranked_bots_query hackathon_id None None
          (World [] [] [] []) with
  | (Return q, _) => (execute q db ∅).1
  | (Raise _, _) => []
  end.

(** A small database and world to run the definitions on. *)
Definition sample_db : database :=
  Database
    [Bot.mk 1 10 25 5 3 1 None; Bot.mk 2 11 30 9 0 2 (Some "Python");
     Bot.mk 1 12 25 5 1 1 None; Bot.mk 4 13 40 7 6 3 (Some "Rust")]
    [User.mk 1 "ada" "Professional" None None None None;
     User.mk 2 "bob" "University" (Some 7) (Some "US") None None;
     User.mk 3 "cyd" "High School" (Some 8) None None None]
    [Organization.mk 7 "Acme"]
    [HackathonParticipant.mk 4 1; HackathonParticipant.mk 4 3;
     HackathonParticipant.mk 5 2].

Definition sample_world : world := World [] ["replays"; "bots"] [] [].

(** A database whose only user has no bot. *)
Definition botless_db : database :=
  Database [] [User.mk 3 "cyd" "High School" None None None None] [] [].

(** What an accessor does when it fetches the bucket [name] of [project]:
    it builds one new client for the project, numbered after the clients
    built before it, sends one [get_bucket] request for [name] through that
    client, and returns the bucket of that name, or fails as the request
    does when the backend has no such bucket. *)
Definition fetches (project name : string) (m : py Storage.Bucket) : Prop :=
  ∀ w,
    let c := Storage.mk_client project (length (clients w)) in
    (m w).2 = World (stdout w) (remote_buckets w)
                    (clients w ++ [c]) (requests w ++ [(c, name)])
    ∧ (m w).1 = if decide (name ∈ remote_buckets w)
                then Return (Storage.mk_bucket name c)
                else Raise (NotFound name).

Definition sample_config : Config.t :=
  Config.mk "halite" "compilation" "bots" ["replays"; "gold-replays"]
            "error-logs".



(** The sum of a column. *)
Definition sum_Z (l : list Z) : Z := foldr Z.add 0 l.

(** * Properties *)

(** ** The counter and the ordering *)

Global Instance score_desc_trans {A} (score : A → Z) :
  Transitive (score_desc score).
Proof. unfold score_desc. intros a b c ? ?. lia. Qed.

Global Instance score_desc_total {A} (score : A → Z) :
  Total (score_desc score).
Proof. unfold score_desc. intros a b. lia. Qed.

Lemma order_by_desc_perm {A} (score : A → Z) rows :
  order_by_desc score rows ≡ₚ rows.
Proof. apply merge_sort_Permutation. Qed.

Lemma order_by_desc_sorted {A} (score : A → Z) rows :
  StronglySorted (score_desc score) (order_by_desc score rows).
Proof. apply StronglySorted_merge_sort; apply _. Qed.

Lemma order_by_desc_length {A} (score : A → Z) rows :
  length (order_by_desc score rows) = length rows.
Proof. apply Permutation_length, order_by_desc_perm. Qed.

(** Once the counter holds [k], the select list numbers its rows
    [k+1, k+2, ...] in order and leaves the counter at the last number. *)
Lemma select_counting_from {A B} v (mk : option Z → A → B) rows σ k :
  σ !! v = Some k →
  select_counting v mk rows σ =
    (imap (λ i, mk (Some (k + 1 + Z.of_nat i))) rows,
     <[v := k + Z.of_nat (length rows)]> σ).
Proof.
  revert σ k. induction rows as [|a rows IH]; intros σ k Hk; simpl.
  - f_equal. rewrite Z.add_0_r. symmetry. by apply insert_id.
  - rewrite Hk. simpl.
    rewrite (IH _ (k + 1)) by apply lookup_insert_eq.
    rewrite insert_insert_eq. f_equal.
    + f_equal; [f_equal; f_equal; lia|].
      apply imap_ext. intros i x _. simpl. f_equal. f_equal. lia.
    + f_equal. lia.
Qed.

Lemma rn_lookup v σ : rn v σ !! v = Some 0.
Proof. apply lookup_insert_eq. Qed.

Lemma StronglySorted_lookup {A} (R : relation A) l i j x y :
  StronglySorted R l → l !! i = Some x → l !! j = Some y → (i < j)%nat → R x y.
Proof.
  intros Hl Hi Hj Hij.
  rewrite <-(take_drop j l) in Hl.
  apply (StronglySorted_app_1_elem_of _ _ _ _ _ Hl).
  - apply list_elem_of_lookup. exists i. by rewrite lookup_take_lt.
  - apply list_elem_of_lookup. exists 0%nat. by rewrite lookup_drop, Nat.add_0_r.
Qed.

(** ** The global ranking *)

Lemma ranked_bot_of_bot r b : RankedBot.bot (RankedBot.of_bot r b) = b.
Proof. by destruct b. Qed.

Lemma ranked_bots_query_execute variable alias db σ :
  execute (ranked_bots_query variable alias) db σ =
    (imap (λ i, RankedBot.of_bot (Some (1 + Z.of_nat i)))
       (order_by_desc Bot.score (bots db)),
     <[default "rank" variable := Z.of_nat (length (bots db))]> σ).
Proof.
  simpl. rewrite (select_counting_from _ _ _ _ 0) by apply rn_lookup.
  unfold rn, assign. by rewrite insert_insert_eq, order_by_desc_length.
Qed.

(** Where each row of a numbered list sits. *)
Lemma numbered_lookup {A B} (mk : option Z → A → B) (l : list A) i r :
  imap (λ i, mk (Some (1 + Z.of_nat i))) l !! i = Some r →
  ∃ a, l !! i = Some a ∧ r = mk (Some (1 + Z.of_nat i)) a.
Proof.
  rewrite list_lookup_imap. destruct (l !! i) as [a|]; [|done].
  intros [= <-]. eauto.
Qed.

(** Numbering keeps the order of the scores. *)
Lemma ranked_rows_sorted (f : nat → option Z) l :
  StronglySorted (score_desc Bot.score) l →
  StronglySorted (score_desc RankedBot.score)
    (imap (λ i, RankedBot.of_bot (f i)) l).
Proof.
  intros Hs. revert f.
  induction Hs as [|b l Hl IH Hb]; intros f; simpl; constructor.
  - apply (IH (f ∘ S)).
  - rewrite Forall_forall. intros r [i [c [-> Hc]]]%elem_of_lookup_imap.
    rewrite Forall_forall in Hb. apply (Hb c).
    apply list_elem_of_lookup; eauto.
Qed.

(** C1: executed on any table of bots, the select built by
    [ranked_bots_query] yields every bot row exactly once, its ranks read
    top to bottom are 1, 2, ..., N with N the number of bot rows, the rows
    come in descending score order, and a bot with a strictly higher score
    has a strictly smaller rank. *)
Theorem ranked_bots_query_ranks variable alias db σ :
  let rows := (execute (ranked_bots_query variable alias) db σ).1 in
  RankedBot.bot <$> rows ≡ₚ bots db
  ∧ RankedBot.bot_rank <$> rows
    = (λ n, Some (Z.of_nat n)) <$> seq 1 (length (bots db))
  ∧ StronglySorted (score_desc RankedBot.score) rows
  ∧ ∀ a b, a ∈ rows → b ∈ rows → RankedBot.score b < RankedBot.score a →
      ∃ ra rb, RankedBot.bot_rank a = Some ra
             ∧ RankedBot.bot_rank b = Some rb ∧ ra < rb.
Proof.
  rewrite ranked_bots_query_execute. simpl.
  set (sorted := order_by_desc Bot.score (bots db)).
  assert (Hsorted : StronglySorted (score_desc RankedBot.score)
            (imap (λ i, RankedBot.of_bot (Some (1 + Z.of_nat i))) sorted))
    by apply ranked_rows_sorted, order_by_desc_sorted.
  split_and!.
  - rewrite fmap_imap.
    rewrite (imap_ext _ (const id)) by (intros; apply ranked_bot_of_bot).
    rewrite imap_const, list_fmap_id. apply order_by_desc_perm.
  - rewrite fmap_imap. simpl.
    rewrite <-(order_by_desc_length Bot.score (bots db)). fold sorted.
    rewrite <-(imap_seq sorted (λ n, Some (Z.of_nat n)) 1).
    apply imap_ext. intros i x _. simpl. do 2 f_equal. lia.
  - done.
  - intros a b [i Hi]%list_elem_of_lookup [j Hj]%list_elem_of_lookup Hlt.
    destruct (numbered_lookup _ _ _ _ Hi) as (x & Hx & ->).
    destruct (numbered_lookup _ _ _ _ Hj) as (y & Hy & ->).
    eexists _, _. split_and!; [done..|]. simpl.
    destruct (decide (i < j)%nat); [lia|].
    destruct (decide (i = j)) as [->|]; [simplify_eq; lia|].
    assert (j < i)%nat as Hji by lia.
    pose proof (StronglySorted_lookup _ _ _ _ _ _ Hsorted Hj Hi Hji) as Hle.
    unfold score_desc in Hle. lia.
Qed.

(** ** The hackathon ranking *)

Lemma participates_iff hid b p :
  participates hid b p ↔ p = HackathonParticipant.mk hid (Bot.user_id b).
Proof.
  unfold participates. destruct p as [h u]. simpl.
  rewrite andb_True, !Is_true_true, !Z.eqb_eq.
  split; [intros [-> ->]; done | intros [= -> ->]; done].
Qed.

Lemma filter_eq_NoDup `{EqDecision A} (a : A) l :
  NoDup l → filter (λ x, x = a) l = if decide (a ∈ l) then [a] else [].
Proof.
  induction 1 as [|x l Hx Hl IH]; [done|].
  rewrite filter_cons, IH. destruct (decide (x = a)) as [->|Hne].
  - rewrite decide_False by done. rewrite decide_True by apply list_elem_of_here.
    done.
  - destruct (decide (a ∈ l)) as [Hin|Hin].
    + rewrite decide_True by (by apply list_elem_of_further). done.
    + rewrite decide_False; [done|].
      intros [?|?]%elem_of_cons; congruence.
Qed.

(** With [(hackathon_id, user_id)] a key of [hackathon_participant], the
    join keeps each participant's bot once and drops the others. *)
Lemma join_participants hid db :
  NoDup (hackathon_participants db) →
  (join (participates hid) (bots db) (hackathon_participants db)).*1
  = participant_bots hid db.
Proof.
  intros Hkey. unfold participant_bots, join.
  induction (bots db) as [|b l IH]; [done|].
  rewrite bind_cons, fmap_app, IH, filter_cons. f_equal.
  rewrite (list_filter_iff _
             (λ p, p = HackathonParticipant.mk hid (Bot.user_id b)))
    by apply participates_iff.
  rewrite filter_eq_NoDup by done.
  destruct (decide (_ ∈ _)); done.
Qed.

Lemma hackathon_ranked_bot_of_bot r b :
  HackathonRankedBot.bot (HackathonRankedBot.of_bot r b) = b.
Proof. by destruct b. Qed.

(** What a call of the builder does and what the select it returns yields. *)
Lemma hackathon_ranked_bots_query_run hid variable alias w :
  ∃ q, hackathon_ranked_bots_query hid variable alias w
       = (Return q, printed (SqlText "temptable") w)
    ∧ alias_name q = default "hackathon_ranked_bots" alias
    ∧ ∀ db σ,
        let joined :=
          (join (participates hid) (bots db) (hackathon_participants db)).*1 in
        execute q db σ =
          (imap (λ i, HackathonRankedBot.of_bot (Some (1 + Z.of_nat i)))
             (order_by_desc Bot.score joined),
           <[default "hrank" variable := Z.of_nat (length joined)]> σ).
Proof.
  eexists. split_and!; [reflexivity|reflexivity|].
  intros db σ joined. simpl.
  rewrite (select_counting_from _ _ _ _ 0) by apply rn_lookup.
  unfold rn, assign. by rewrite insert_insert_eq, order_by_desc_length.
Qed.

(** C4: with [(hackathon_id, user_id)] a key of [hackathon_participant],
    a call of [hackathon_ranked_bots_query] returns a select whose rows are
    exactly the bots owned by a participant of the hackathon, each once, and
    whose ranks read top to bottom are 1, 2, ..., M with M the number of
    those bots. *)
Theorem hackathon_ranked_bots_query_ranks hid variable alias w db σ :
  NoDup (hackathon_participants db) →
  ∃ q w', hackathon_ranked_bots_query hid variable alias w = (Return q, w')
    ∧ let rows := (execute q db σ).1 in
      HackathonRankedBot.bot <$> rows ≡ₚ participant_bots hid db
      ∧ HackathonRankedBot.local_rank <$> rows
        = (λ n, Some (Z.of_nat n))
            <$> seq 1 (length (participant_bots hid db)).
Proof.
  intros Hkey.
  destruct (hackathon_ranked_bots_query_run hid variable alias w)
    as (q & Hrun & _ & Hexec).
  exists q, (printed (SqlText "temptable") w). split; [done|].
  rewrite Hexec, join_participants by done. simpl.
  set (sorted := order_by_desc Bot.score (participant_bots hid db)).
  split.
  - rewrite fmap_imap.
    rewrite (imap_ext _ (const id))
      by (intros; apply hackathon_ranked_bot_of_bot).
    rewrite imap_const, list_fmap_id. apply order_by_desc_perm.
  - rewrite fmap_imap. simpl.
    rewrite <-(order_by_desc_length Bot.score (participant_bots hid db)).
    fold sorted.
    rewrite <-(imap_seq sorted (λ n, Some (Z.of_nat n)) 1).
    apply imap_ext. intros i x _. simpl. do 2 f_equal. lia.
Qed.

Ltac by_computation := apply (bool_decide_unpack _); vm_compute; exact I.

Lemma hackathon_ranked_bots_query_ranks_sample :
  NoDup (hackathon_participants sample_db)
  ∧ ∃ q w', hackathon_ranked_bots_query 4 None None sample_world
            = (Return q, w')
    ∧ let rows := (execute q sample_db ∅).1 in
      HackathonRankedBot.bot <$> rows ≡ₚ participant_bots 4 sample_db
      ∧ HackathonRankedBot.local_rank <$> rows
        = (λ n, Some (Z.of_nat n))
            <$> seq 1 (length (participant_bots 4 sample_db)).
Proof.
  assert (Hkey : NoDup (hackathon_participants sample_db)) by by_computation.
  split; [exact Hkey|].
  exact (hackathon_ranked_bots_query_ranks 4 None None sample_world
           sample_db ∅ Hkey).
Defined.

(** ** The hackathon ranking joined with the global one *)

Lemma elem_of_join {A B} (on : A → B → bool) l r a b :
  (a, b) ∈ join on l r ↔ a ∈ l ∧ b ∈ r ∧ on a b.
Proof.
  unfold join. rewrite list_elem_of_bind. split.
  - intros (a' & Hin & Ha').
    apply list_elem_of_fmap in Hin as (b' & [= -> ->] & Hb').
    apply list_elem_of_filter in Hb' as [Hon Hb']. done.
  - intros (Ha & Hb & Hon). exists a. split; [|done].
    apply list_elem_of_fmap. exists b. split; [done|].
    by apply list_elem_of_filter.
Qed.

Lemma elem_of_outerjoin {A B} (on : A → B → bool) l r a o :
  (a, o) ∈ outerjoin on l r ↔
    a ∈ l ∧ match o with
            | Some b => b ∈ r ∧ on a b
            | None => ∀ b, b ∈ r → ¬ on a b
            end.
Proof.
  unfold outerjoin. rewrite list_elem_of_bind.
  assert (Hmatch : ∀ a' b, b ∈ filter (λ b, on a' b) r ↔ b ∈ r ∧ on a' b).
  { intros a' b. rewrite list_elem_of_filter. tauto. }
  split.
  - intros (a' & Hin & Ha').
    destruct (filter (λ b, on a' b) r) as [|b0 m] eqn:Hf.
    + apply list_elem_of_singleton in Hin as [= -> ->]. split; [done|].
      intros b Hb Hon.
      assert (b ∈ filter (λ b, on a' b) r) as Hbf by by apply Hmatch.
      rewrite Hf in Hbf. by apply not_elem_of_nil in Hbf.
    + apply list_elem_of_fmap in Hin as (b' & [= -> ->] & Hb').
      rewrite <-Hf in Hb'. apply Hmatch in Hb'. done.
  - intros (Ha & Ho). exists a. split; [|done].
    destruct (filter (λ b, on a b) r) as [|b0 m] eqn:Hf.
    + destruct o as [b|]; [|apply list_elem_of_here].
      assert (b ∈ filter (λ b, on a b) r) as Hbf by by apply Hmatch.
      rewrite Hf in Hbf. by apply not_elem_of_nil in Hbf.
    + assert (b0 ∈ filter (λ b, on a b) r) as Hb0
        by (rewrite Hf; apply list_elem_of_here).
      apply Hmatch in Hb0 as [Hb0 Hon0].
      destruct o as [b|]; [|by destruct (Ho b0)].
      apply list_elem_of_fmap. exists b. split; [done|].
      rewrite <-Hf. by apply Hmatch.
Qed.

Lemma global_ranking_rows variable alias db σ :
  (execute (ranked_bots_query variable alias) db σ).1 = global_ranking db.
Proof.
  unfold global_ranking, ranked_bots.
  by rewrite !ranked_bots_query_execute.
Qed.

Lemma local_ranking_rows hid variable alias w q w' db σ :
  hackathon_ranked_bots_query hid variable alias w = (Return q, w') →
  (execute q db σ).1 = local_ranking hid db.
Proof.
  intros Hq. unfold local_ranking.
  destruct (hackathon_ranked_bots_query_run hid variable alias w)
    as (q1 & Hrun1 & _ & Hexec1).
  destruct (hackathon_ranked_bots_query_run hid None None (World [] [] [] []))
    as (q2 & Hrun2 & _ & Hexec2).
  rewrite Hrun2, Hexec2. rewrite Hq in Hrun1. injection Hrun1 as -> _.
  by rewrite Hexec1.
Qed.

(** Every row of the composite stems from one global row, one user and one
    local row that agree on [(user_id, bot_id)]. *)
Lemma hackathon_ranked_bots_users_rows_inv rb us lr orgs row :
  row ∈ hackathon_ranked_bots_users_rows rb us lr orgs →
  ∃ g u l,
    g ∈ rb ∧ u ∈ us ∧ l ∈ lr
    ∧ HackathonRankedBotUser.user_id row = User.id u
    ∧ RankedBot.user_id g = HackathonRankedBotUser.user_id row
    ∧ RankedBot.bot_id g = HackathonRankedBotUser.bot_id row
    ∧ HackathonRankedBot.user_id l = HackathonRankedBotUser.user_id row
    ∧ HackathonRankedBot.bot_id l = HackathonRankedBotUser.bot_id row
    ∧ HackathonRankedBotUser.global_rank row = RankedBot.bot_rank g
    ∧ HackathonRankedBotUser.local_rank row = HackathonRankedBot.local_rank l.
Proof.
  unfold hackathon_ranked_bots_users_rows.
  intros ([[[g u] l] o] & -> & Hin)%list_elem_of_fmap.
  apply elem_of_outerjoin in Hin as [Hin _].
  apply elem_of_join in Hin as (Hgu & Hl & Hsame).
  apply elem_of_join in Hgu as (Hg & Hu & Hown).
  unfold same_bot in Hsame. unfold owned_by in Hown. simpl in *.
  apply andb_True in Hsame as [Huid Hbid].
  apply Is_true_true, Z.eqb_eq in Huid, Hbid, Hown.
  exists g, u, l. split_and!; try done; congruence.
Qed.

Lemma execute_Alias {A} name (f : database → session → list A * session)
    db σ :
  execute (Alias name f) db σ = f db σ.
Proof. done. Qed.

Lemma hackathon_ranked_bots_users_query_run hid alias w :
  ∃ q, hackathon_ranked_bots_users_query hid alias w
       = (Return q, printed (SqlText "temptable") w)
    ∧ ∀ db σ,
        (execute q db σ).1
        = hackathon_ranked_bots_users_rows (global_ranking db) (users db)
            (local_ranking hid db) (organizations db).
Proof.
  destruct (hackathon_ranked_bots_query_run hid None (Some "local_rank") w)
    as (ql & Hrun & _ & Hexec).
  unfold hackathon_ranked_bots_users_query, mbind, py_bind.
  rewrite Hrun. eexists. split; [reflexivity|].
  intros db σ. rewrite execute_Alias.
  pose proof (global_ranking_rows None None db σ) as Hglobal.
  fold ranked_bots in Hglobal.
  destruct (execute ranked_bots db σ) as [rb σ1].
  pose proof (local_ranking_rows _ _ _ _ _ _ db σ1 Hrun) as Hlocal.
  destruct (execute ql db σ1) as [lr σ2]. simpl in *. by subst.
Qed.

(** C5: every row of the select built by
    [hackathon_ranked_bots_users_query] carries as [global_rank] the rank
    its bot has in the global ranking of all bots and as [local_rank] the
    rank it has in the ranking of the hackathon's bots; both joins on
    [(user_id, bot_id)] are inner, so whatever rows the two rankings hold, a
    local row without a global row of the same [(user_id, bot_id)] has no
    row in the result. *)
Theorem hackathon_ranked_bots_users_query_ranks hid alias w db σ :
  (∃ q w', hackathon_ranked_bots_users_query hid alias w = (Return q, w')
     ∧ (execute q db σ).1
       = hackathon_ranked_bots_users_rows (global_ranking db) (users db)
           (local_ranking hid db) (organizations db)
     ∧ ∀ row, row ∈ (execute q db σ).1 →
         (∃ g, g ∈ global_ranking db
             ∧ RankedBot.user_id g = HackathonRankedBotUser.user_id row
             ∧ RankedBot.bot_id g = HackathonRankedBotUser.bot_id row
             ∧ HackathonRankedBotUser.global_rank row = RankedBot.bot_rank g)
         ∧ (∃ l, l ∈ local_ranking hid db
             ∧ HackathonRankedBot.user_id l = HackathonRankedBotUser.user_id row
             ∧ HackathonRankedBot.bot_id l = HackathonRankedBotUser.bot_id row
             ∧ HackathonRankedBotUser.local_rank row
               = HackathonRankedBot.local_rank l))
  ∧ (∀ rb us lr orgs l,
       l ∈ lr →
       (∀ g, g ∈ rb →
          ¬ (RankedBot.user_id g = HackathonRankedBot.user_id l
             ∧ RankedBot.bot_id g = HackathonRankedBot.bot_id l)) →
       ∀ row, row ∈ hackathon_ranked_bots_users_rows rb us lr orgs →
          ¬ (HackathonRankedBotUser.user_id row = HackathonRankedBot.user_id l
             ∧ HackathonRankedBotUser.bot_id row
               = HackathonRankedBot.bot_id l)).
Proof.
  split.
  - destruct (hackathon_ranked_bots_users_query_run hid alias w)
      as (q & Hrun & Hexec).
    eexists _, _. split; [exact Hrun|]. split; [apply Hexec|].
    intros row Hrow. rewrite Hexec in Hrow.
    apply hackathon_ranked_bots_users_rows_inv in Hrow
      as (g & u & l & ? & ? & ? & ? & ? & ? & ? & ? & ? & ?).
    split; [exists g | exists l]; done.
  - intros rb us lr orgs l Hl Habsent row Hrow [Huid Hbid].
    apply hackathon_ranked_bots_users_rows_inv in Hrow
      as (g & u & l' & Hg & ? & ? & ? & ? & ? & ? & ? & ? & ?).
    apply (Habsent g Hg). split; congruence.
Qed.

(** ** Grouping and aggregates *)

Lemma elem_of_group_by {A} `{EqDecision K} (key : A → K) rows g :
  g ∈ group_by key rows ↔
    ∃ x, x ∈ rows ∧ g = filter (λ a, key a = key x) rows.
Proof.
  unfold group_by. rewrite list_elem_of_fmap. split.
  - intros (k & -> & Hk). rewrite elem_of_remove_dups in Hk.
    apply list_elem_of_fmap in Hk as (x & -> & Hx). eauto.
  - intros (x & Hx & ->). exists (key x). split; [done|].
    apply elem_of_remove_dups, list_elem_of_fmap. eauto.
Qed.

(** A group is never empty, and all its rows share the key of its first. *)
Lemma group_by_head {A} `{EqDecision K} (key : A → K) rows g :
  g ∈ group_by key rows →
  ∃ x, head g = Some x ∧ x ∈ rows
     ∧ g = filter (λ a, key a = key x) rows.
Proof.
  intros (x & Hx & ->)%elem_of_group_by.
  destruct (filter (λ a, key a = key x) rows) as [|y g] eqn:Hg.
  - assert (x ∈ filter (λ a, key a = key x) rows) as Hin
      by by apply list_elem_of_filter.
    rewrite Hg in Hin. by apply not_elem_of_nil in Hin.
  - assert (y ∈ filter (λ a, key a = key x) rows) as Hin
      by (rewrite Hg; apply list_elem_of_here).
    apply list_elem_of_filter in Hin as [Hkey Hy].
    exists y. split_and!; [done|done|].
    rewrite <-Hg. apply list_filter_iff. intros a. by rewrite Hkey.
Qed.

(** One output row per group, keyed like the group: the keys of the output
    are the distinct keys of the input, in order of first appearance. *)
Lemma group_by_keys {A B} `{EqDecision K} (key : A → K) (out : B → K)
    (f : list A → option B) rows :
  (∀ g x, head g = Some x → ∃ y, f g = Some y ∧ out y = key x) →
  out <$> omap f (group_by key rows) = remove_dups (key <$> rows).
Proof.
  intros Hf. unfold group_by.
  assert (Hks : ∀ k, k ∈ remove_dups (key <$> rows) → k ∈ key <$> rows)
    by (intros k; apply elem_of_remove_dups).
  induction (remove_dups (key <$> rows)) as [|k ks IH]; [done|].
  rewrite fmap_cons. simpl.
  assert (filter (λ a, key a = k) rows ∈ group_by key rows) as Hg.
  { apply list_elem_of_fmap. exists k. split; [done|].
    apply elem_of_remove_dups, Hks, list_elem_of_here. }
  apply group_by_head in Hg as (x & Hhead & Hx & Heq).
  destruct (Hf _ _ Hhead) as (y & -> & Hy). rewrite fmap_cons. f_equal.
  - rewrite Hy.
    assert (x ∈ filter (λ a, key a = k) rows) as Hin
      by by apply head_Some_elem_of.
    by apply list_elem_of_filter in Hin as [-> _].
  - apply IH. intros k' Hk'. by apply Hks, list_elem_of_further.
Qed.

Lemma elem_of_non_null {A} (l : list (option A)) x :
  x ∈ non_null l ↔ Some x ∈ l.
Proof.
  unfold non_null. rewrite list_elem_of_omap. split.
  - by intros ([y|] & Hy & [= ->]).
  - intros Hx. by exists (Some x).
Qed.

Lemma foldl_min_spec xs x :
  foldl Z.min x xs ∈ x :: xs ∧ ∀ y, y ∈ x :: xs → foldl Z.min x xs ≤ y.
Proof.
  revert x. induction xs as [|z xs IH]; intros x; simpl.
  - split; [apply list_elem_of_here|].
    intros y ->%list_elem_of_singleton. lia.
  - destruct (IH (Z.min x z)) as [Hin Hle]. split.
    + apply elem_of_cons in Hin as [Heq|Hin].
      * rewrite Heq. destruct (Z.min_spec x z) as [[_ ->]|[_ ->]].
        -- apply list_elem_of_here.
        -- apply list_elem_of_further, list_elem_of_here.
      * by do 2 apply list_elem_of_further.
    + intros y Hy.
      assert (foldl Z.min (Z.min x z) xs ≤ Z.min x z) as Hm
        by apply Hle, list_elem_of_here.
      apply elem_of_cons in Hy as [->|Hy]; [lia|].
      apply elem_of_cons in Hy as [->|Hy]; [lia|].
      by apply Hle, list_elem_of_further.
Qed.

(** [min] is the least of the values that are not NULL, when there is one. *)
Lemma min__Some l m :
  min_ l = Some m ↔ Some m ∈ l ∧ ∀ y, Some y ∈ l → m ≤ y.
Proof.
  unfold min_, agg. setoid_rewrite <-elem_of_non_null.
  destruct (non_null l) as [|x xs].
  - split; [done|]. intros [[]%not_elem_of_nil _].
  - destruct (foldl_min_spec xs x) as [Hin Hle]. split.
    + by intros [= <-].
    + intros [Hm Hmle]. f_equal.
      pose proof (Hle m Hm). pose proof (Hmle _ Hin). lia.
Qed.

Lemma agg_None f l : agg f l = None ↔ ∀ y, Some y ∉ l.
Proof.
  unfold agg. setoid_rewrite <-elem_of_non_null.
  destruct (non_null l) as [|x xs]; split; try done.
  - intros _ y. apply not_elem_of_nil.
  - intros Hnone. destruct (Hnone x). apply list_elem_of_here.
Qed.

(** ** Users ranked by their best bot *)

Lemma global_ranking_unfold db :
  global_ranking db
  = imap (λ i, RankedBot.of_bot (Some (1 + Z.of_nat i)))
      (order_by_desc Bot.score (bots db)).
Proof. unfold global_ranking, ranked_bots. by rewrite ranked_bots_query_execute. Qed.

Lemma global_ranking_bots db : RankedBot.bot <$> global_ranking db ≡ₚ bots db.
Proof.
  rewrite global_ranking_unfold, fmap_imap.
  rewrite (imap_ext _ (const id)) by (intros; apply ranked_bot_of_bot).
  rewrite imap_const, list_fmap_id. apply order_by_desc_perm.
Qed.

Lemma global_ranking_ranked db r :
  r ∈ global_ranking db → is_Some (RankedBot.bot_rank r).
Proof.
  rewrite global_ranking_unfold.
  intros (i & b & -> & _)%elem_of_lookup_imap. by eexists.
Qed.

(** The owners that occur in the ranking are the owners of the bots. *)
Lemma global_ranking_owner db uid :
  (∃ r, r ∈ global_ranking db ∧ RankedBot.user_id r = uid)
  ↔ ∃ b, b ∈ bots db ∧ Bot.user_id b = uid.
Proof.
  split.
  - intros (r & Hr & <-). exists (RankedBot.bot r). split; [|done].
    rewrite <-(global_ranking_bots db). by apply list_elem_of_fmap_2.
  - intros (b & Hb & <-). rewrite <-(global_ranking_bots db) in Hb.
    apply list_elem_of_fmap in Hb as (r & -> & Hr). by exists r.
Qed.

Lemma owned_by_iff u r :
  owned_by u r ↔ RankedBot.user_id r = User.id u.
Proof. unfold owned_by. by rewrite Is_true_true, Z.eqb_eq. Qed.

Lemma ranked_users_query_execute alias db σ :
  (execute (ranked_users_query alias) db σ).1
  = omap ranked_users_row
      (group_by (λ '(u, _), User.id u)
         (join owned_by (users db) (global_ranking db))).
Proof.
  unfold ranked_users_query. cbv zeta. rewrite execute_Alias.
  pose proof (global_ranking_rows (Some "rurank") None db σ) as Hglobal.
  destruct (execute (ranked_bots_query (Some "rurank") None) db σ)
    as [rb σ']. simpl in *. by subst.
Qed.

(** C7: the select built by [ranked_users_query] yields one row per user id
    that belongs to a user and owns a bot, no row for any other user, and the
    rank in a user's row is the least rank the global ranking gives to a bot
    of that user. *)
Theorem ranked_users_query_best alias db σ :
  let rows := (execute (ranked_users_query alias) db σ).1 in
  NoDup (RankedUser.user_id <$> rows)
  ∧ (∀ uid, uid ∈ RankedUser.user_id <$> rows ↔
       (∃ u, u ∈ users db ∧ User.id u = uid)
       ∧ (∃ b, b ∈ bots db ∧ Bot.user_id b = uid))
  ∧ ∀ row, row ∈ rows →
      ∃ m, RankedUser.rank row = Some m
        ∧ (∃ r, r ∈ global_ranking db
              ∧ RankedBot.user_id r = RankedUser.user_id row
              ∧ RankedBot.bot_rank r = Some m)
        ∧ ∀ r, r ∈ global_ranking db →
               RankedBot.user_id r = RankedUser.user_id row →
               ∃ m', RankedBot.bot_rank r = Some m' ∧ m ≤ m'.
Proof.
  cbv zeta. rewrite ranked_users_query_execute.
  set (from := join owned_by (users db) (global_ranking db)).
  set (key := λ '((u, _) : User.t * RankedBot.t), User.id u).
  assert (Hkeys : RankedUser.user_id <$> omap ranked_users_row
                    (group_by key from)
                  = remove_dups (key <$> from)).
  { apply group_by_keys. intros g [u r] Hhead.
    unfold ranked_users_row. rewrite Hhead. simpl. eauto. }
  split_and!.
  - rewrite Hkeys. apply NoDup_remove_dups.
  - intros uid. rewrite Hkeys, elem_of_remove_dups, list_elem_of_fmap.
    rewrite <-global_ranking_owner. split.
    + intros ([u r] & -> & (Hu & Hr & Hown)%elem_of_join).
      apply owned_by_iff in Hown. simpl. split; [by exists u | by exists r].
    + intros [(u & Hu & <-) (r & Hr & Hown)]. exists (u, r).
      split; [done|]. apply elem_of_join. by rewrite owned_by_iff.
  - intros row (g & Hg & Hrow)%list_elem_of_omap.
    apply group_by_head in Hg as ([u0 r0] & Hhead & Hx & Heq).
    unfold ranked_users_row in Hrow. rewrite Hhead in Hrow. simpl in Hrow.
    injection Hrow as <-. simpl.
    apply elem_of_join in Hx as (Hu0 & Hr0 & Hown0).
    set (ranks := (λ '(_, r), RankedBot.bot_rank r) <$> g).
    assert (Hranks : ∀ o, o ∈ ranks ↔
              ∃ r, r ∈ global_ranking db
                 ∧ RankedBot.user_id r = User.id u0
                 ∧ o = RankedBot.bot_rank r).
    { intros o. unfold ranks. rewrite list_elem_of_fmap, Heq. split.
      - intros ([u r] & -> & [Hk Hin]%list_elem_of_filter).
        apply elem_of_join in Hin as (_ & Hr & Hown%owned_by_iff).
        simpl in Hk. exists r. split_and!; [done|congruence|done].
      - intros (r & Hr & Hid & ->). exists (u0, r). split; [done|].
        apply list_elem_of_filter. split; [done|].
        apply elem_of_join. by rewrite owned_by_iff. }
    destruct (min_ ranks) as [m|] eqn:Hmin.
    + apply min__Some in Hmin as [Hm Hle]. exists m. split_and!; [done| |].
      * apply Hranks in Hm as (r & ? & ? & ?). by exists r.
      * intros r Hr Hid.
        destruct (global_ranking_ranked db r Hr) as [m' Hm'].
        exists m'. split; [done|]. apply Hle, Hranks. by exists r.
    + exfalso. destruct (global_ranking_ranked db r0 Hr0) as [m0 Hm0].
      apply (proj1 (agg_None _ _) Hmin m0), Hranks. exists r0.
      by apply owned_by_iff in Hown0.
Qed.

(** On the sample database user 1 owns the bots ranked 3 and 4 and is
    listed with rank 3; the owner of the bot ranked 2 has no user row and is
    left out. *)
Example ranked_users_query_sample :
  (execute (ranked_users_query None) sample_db ∅).1
  = [RankedUser.mk 1 "ada" (Some 3); RankedUser.mk 2 "bob" (Some 1)].
Proof. vm_compute. reflexivity. Qed.

(** ** The summary of all users *)

Lemma all_users_execute db σ :
  (execute all_users db σ).1
  = omap all_users_row
      (group_by (λ '(u, _, _), User.id u)
         (outerjoin (λ '(u, _) o, organization_of u o)
            (outerjoin owned_by (users db) (global_ranking db))
            (organizations db))).
Proof.
  unfold all_users. rewrite execute_Alias.
  pose proof (global_ranking_rows None None db σ) as Hglobal.
  fold ranked_bots in Hglobal.
  destruct (execute ranked_bots db σ) as [rb σ']. simpl in *. by subst.
Qed.

(** C2, as the code has it: the row of a user without bots reports no
    games, no submissions, score 0 and no rank, but its [num_bots] counts
    the NULL-padded row the outer join keeps for that user, so it is at
    least 1 and never 0. *)
Theorem all_users_zero_bots db σ row :
  row ∈ (execute all_users db σ).1 →
  (∀ b, b ∈ bots db → Bot.user_id b ≠ AllUsers.user_id row) →
  1 ≤ AllUsers.num_bots row
  ∧ AllUsers.num_games row = 0
  ∧ AllUsers.num_submissions row = 0
  ∧ AllUsers.score row = 0
  ∧ AllUsers.rank row = None.
Proof.
  rewrite all_users_execute.
  intros (g & Hg & Hrow)%list_elem_of_omap Hnone.
  apply group_by_head in Hg as ([[u0 r0] o0] & Hhead & _ & Heq).
  unfold all_users_row in Hrow. rewrite Hhead in Hrow. simpl in Hrow.
  injection Hrow as <-. simpl in *.
  assert (Hnull : ∀ B (f : RankedBot.t → option B) y,
            Some y ∉ (λ '(_, r, _), r ≫= f) <$> g).
  { intros B f y ([[u r] o] & Hy & Hin)%list_elem_of_fmap.
    rewrite Heq in Hin.
    apply list_elem_of_filter in Hin as [Hk Hin]. simpl in Hk.
    apply elem_of_outerjoin in Hin as [Hin _].
    apply elem_of_outerjoin in Hin as [_ Hr].
    destruct r as [r|]; [|done]. destruct Hr as [Hr Hown%owned_by_iff].
    destruct (proj1 (global_ranking_owner db (User.id u0)))
      as (b & Hb & Hid); [exists r; split; [done|congruence]|].
    by apply (Hnone b). }
  split_and!.
  - apply head_Some in Hhead as [g' ->]. unfold coalesce, count_star.
    simpl. lia.
  - unfold sum_. by rewrite (proj2 (agg_None _ _)) by apply Hnull.
  - unfold sum_. by rewrite (proj2 (agg_None _ _)) by apply Hnull.
  - unfold max_. by rewrite (proj2 (agg_None _ _)) by apply Hnull.
  - unfold min_. by rewrite (proj2 (agg_None _ _)) by apply Hnull.
Qed.

Lemma all_users_zero_bots_sample :
  let row := AllUsers.mk 3 "cyd" "High School" None None None None None
               1 0 0 0 None in
  (execute all_users botless_db ∅).1 = [row]
  ∧ (∀ b, b ∈ bots botless_db → Bot.user_id b ≠ AllUsers.user_id row)
  ∧ 1 ≤ AllUsers.num_bots row
  ∧ AllUsers.num_games row = 0
  ∧ AllUsers.num_submissions row = 0
  ∧ AllUsers.score row = 0
  ∧ AllUsers.rank row = None.
Proof.
  intros row.
  assert (Hrows : (execute all_users botless_db ∅).1 = [row])
    by (vm_compute; reflexivity).
  assert (Hnone : ∀ b, b ∈ bots botless_db →
                       Bot.user_id b ≠ AllUsers.user_id row)
    by (intros b Hb; by apply not_elem_of_nil in Hb).
  split; [exact Hrows|]. split; [exact Hnone|].
  apply (all_users_zero_bots botless_db ∅ row); [|exact Hnone].
  rewrite Hrows. apply list_elem_of_here.
Defined.

(** ** What calling a builder does *)

(** C3, as the code has it: a call of either hackathon builder returns its
    select and never raises, but on the way it writes the SQL text of
    [temptable] to standard output, so the world it leaves differs from the
    one it found. *)
Theorem hackathon_builders_print hid variable alias w :
  (∃ q, hackathon_ranked_bots_query hid variable alias w
        = (Return q, printed (SqlText "temptable") w))
  ∧ (∃ q, hackathon_ranked_bots_users_query hid alias w
          = (Return q, printed (SqlText "temptable") w))
  ∧ stdout (printed (SqlText "temptable") w)
    = (stdout w ++ [SqlText "temptable"])%list
  ∧ printed (SqlText "temptable") w ≠ w.
Proof.
  split_and!.
  - destruct (hackathon_ranked_bots_query_run hid variable alias w)
      as (q & Hrun & _). by exists q.
  - destruct (hackathon_ranked_bots_users_query_run hid alias w)
      as (q & Hrun & _). by exists q.
  - done.
  - intros Heq. apply (f_equal (length ∘ stdout)) in Heq. simpl in Heq.
    rewrite length_app in Heq. simpl in Heq. lia.
Qed.

(** ** The counter of the hackathon ranking *)

(** A call that leaves [variable] out returns a select all the same, and
    that select counts in [@hrank]. *)
Lemma hackathon_ranked_bots_query_variable_omitted :
  ∃ q w', hackathon_ranked_bots_query 4 None None sample_world
          = (Return q, w')
    ∧ (execute q sample_db ∅).2 = {["hrank" := 2]}.
Proof.
  destruct (hackathon_ranked_bots_query_run 4 None None sample_world)
    as (q & Hrun & _ & Hexec).
  exists q, (printed (SqlText "temptable") sample_world).
  split; [exact Hrun|]. rewrite Hexec. reflexivity.
Qed.

(** C6, amended: [variable] is an optional keyword parameter of
    [hackathon_ranked_bots_query] whose default is "hrank"; executing the
    returned select sets that one user variable to the number of rows it
    ranked and leaves every other variable as it was, and the default
    counter of the global ranking is another one, "rank". *)
Theorem hackathon_ranked_bots_query_variable hid variable alias w db σ :
  ∃ q w', hackathon_ranked_bots_query hid variable alias w = (Return q, w')
    ∧ (execute q db σ).2
      = <[default "hrank" variable := Z.of_nat (length (execute q db σ).1)]> σ
    ∧ (execute (ranked_bots_query None None) db σ).2
      = <["rank" := Z.of_nat (length (bots db))]> σ
    ∧ default "hrank" None ≠ "rank".
Proof.
  destruct (hackathon_ranked_bots_query_run hid variable alias w)
    as (q & Hrun & _ & Hexec).
  exists q, (printed (SqlText "temptable") w). split; [exact Hrun|].
  rewrite Hexec, ranked_bots_query_execute. simpl.
  by rewrite length_imap, order_by_desc_length.
Qed.

(** ** The number of ranked bots *)

(** C8: [total_ranked_bots] is the number of bot rows with
    [games_played > 0], and two tables that hold the same bots once those
    with zero games are left out have the same total. *)
Theorem total_ranked_bots_count db :
  total_ranked_bots db
  = Z.of_nat (length (filter (λ b, 0 < Bot.games_played b) (bots db)))
  ∧ ∀ db',
      filter (λ b, Bot.games_played b ≠ 0) (bots db')
      ≡ₚ filter (λ b, Bot.games_played b ≠ 0) (bots db) →
      total_ranked_bots db' = total_ranked_bots db.
Proof.
  assert (Hplayed : ∀ l : list Bot.t,
            filter (λ b, Bot.games_played b > 0) l
            = filter (λ b, Bot.games_played b > 0)
                (filter (λ b, Bot.games_played b ≠ 0) l)).
  { intros l. rewrite list_filter_filter. apply list_filter_iff.
    intros b. lia. }
  unfold total_ranked_bots, count_star. split.
  - do 2 f_equal. apply list_filter_iff. intros b. lia.
  - intros db' Hsame.
    rewrite (Hplayed (bots db')), (Hplayed (bots db)). by rewrite Hsame.
Qed.

(** ** Bucket accessors *)

Lemma fetch_fetches project name :
  fetches project name (c ← Client project; get_bucket c name).
Proof.
  intros w c. unfold mbind, py_bind, Client, get_bucket. simpl.
  rewrite bool_decide_decide. by destruct (decide _).
Qed.

(** Indexing inside the list, from the front or from the end. *)
Lemma getitem_front {A} (l : list A) (i : nat) a w :
  l !! i = Some a → getitem l (Z.of_nat i) w = (Return a, w).
Proof.
  intros Hi. pose proof (lookup_lt_Some _ _ _ Hi) as Hlt.
  unfold getitem.
  rewrite (proj2 (Z.ltb_ge _ _)) by lia.
  rewrite (proj2 (Z.leb_le _ _)), (proj2 (Z.ltb_lt _ _)) by lia. simpl.
  by rewrite Nat2Z.id, Hi.
Qed.

Lemma getitem_back {A} (l : list A) (k : nat) a w :
  (0 < k ≤ length l)%nat → l !! (length l - k)%nat = Some a →
  getitem l (- Z.of_nat k) w = (Return a, w).
Proof.
  intros Hk Hi. unfold getitem.
  rewrite (proj2 (Z.ltb_lt _ _)) by lia.
  rewrite (proj2 (Z.leb_le _ _)), (proj2 (Z.ltb_lt _ _)) by lia. simpl.
  replace (Z.to_nat (- Z.of_nat k + Z.of_nat (length l)))
    with (length l - k)%nat by lia.
  by rewrite Hi.
Qed.

Lemma getitem_out_of_range {A} (l : list A) k w :
  k < - Z.of_nat (length l) ∨ Z.of_nat (length l) ≤ k →
  getitem l k w = (Raise IndexError, w).
Proof.
  intros Hk. unfold getitem. destruct (Z.ltb_spec k 0).
  - rewrite (proj2 (Z.leb_gt _ _)) by lia. done.
  - rewrite (proj2 (Z.ltb_ge _ _)) by lia. by rewrite andb_false_r.
Qed.

Lemma get_replay_bucket_fetches config kind name :
  (∀ w, getitem (Config.GCLOUD_REPLAY_BUCKETS config) kind w
        = (Return name, w)) →
  fetches (Config.GCLOUD_PROJECT config) name
    (get_replay_bucket config (Some kind)).
Proof.
  intros Hitem w c.
  unfold get_replay_bucket, get_storage_client, mbind, py_bind, Client.
  simpl. rewrite Hitem. unfold get_bucket. simpl.
  rewrite bool_decide_decide. by destruct (decide _).
Qed.

(** C9: each accessor builds a new client for the configured project on
    every call and fetches through it the bucket the configuration names:
    the compilation, bot and error-log bucket for their accessors, and for
    [get_replay_bucket] the replay bucket at index [kind], counted from the
    front or, when negative, from the end, with [kind] 0 when left out.
    Clients built by successive calls differ. *)
Theorem bucket_accessors_fetch config :
  let project := Config.GCLOUD_PROJECT config in
  let replays := Config.GCLOUD_REPLAY_BUCKETS config in
  fetches project (Config.GCLOUD_COMPILATION_BUCKET config)
    (get_compilation_bucket config)
  ∧ fetches project (Config.GCLOUD_BOT_BUCKET config) (get_bot_bucket config)
  ∧ fetches project (Config.GCLOUD_ERROR_LOG_BUCKET config)
      (get_error_log_bucket config)
  ∧ get_replay_bucket config None = get_replay_bucket config (Some 0)
  ∧ (∀ (i : nat) name,
       replays !! i = Some name →
       fetches project name (get_replay_bucket config (Some (Z.of_nat i))))
  ∧ (∀ (k : nat) name,
       (0 < k ≤ length replays)%nat →
       replays !! (length replays - k)%nat = Some name →
       fetches project name
         (get_replay_bucket config (Some (- Z.of_nat k))))
  ∧ (∀ name name' m m' w b w' b' w'',
       fetches project name m → fetches project name' m' →
       m w = (Return b, w') → m' w' = (Return b', w'') →
       Storage.client b ≠ Storage.client b').
Proof.
  cbv zeta. split_and!.
  - apply fetch_fetches.
  - apply fetch_fetches.
  - apply fetch_fetches.
  - done.
  - intros i name Hi. apply get_replay_bucket_fetches.
    intros w. by apply getitem_front.
  - intros k name Hk Hi. apply get_replay_bucket_fetches.
    intros w. by apply getitem_back.
  - intros name name' m m' w b w' b' w'' Hm Hm' Hrun Hrun'.
    destruct (Hm w) as [Hw Hb]. destruct (Hm' w') as [_ Hb'].
    rewrite Hrun in Hw, Hb. rewrite Hrun' in Hb'. simpl in *.
    destruct (decide (name ∈ remote_buckets w)); [|done].
    destruct (decide (name' ∈ remote_buckets w')); [|done].
    injection Hb as ->. injection Hb' as ->. simpl.
    rewrite Hw. simpl. rewrite length_app. simpl. intros [=]. lia.
Qed.

(** C10: for an index outside the replay bucket list, neither a position
    from the front nor one from the end, [get_replay_bucket] raises
    [IndexError]; by then it has built its client, but it has sent no
    bucket request and printed nothing. *)
Theorem get_replay_bucket_out_of_range config kind w :
  let n := Z.of_nat (length (Config.GCLOUD_REPLAY_BUCKETS config)) in
  kind < - n ∨ n ≤ kind →
  let c := Storage.mk_client (Config.GCLOUD_PROJECT config)
             (length (clients w)) in
  get_replay_bucket config (Some kind) w
  = (Raise IndexError,
     World (stdout w) (remote_buckets w) (clients w ++ [c]) (requests w)).
Proof.
  intros n Hkind c.
  unfold get_replay_bucket, get_storage_client, mbind, py_bind, Client.
  simpl. by rewrite getitem_out_of_range.
Qed.

Lemma get_replay_bucket_out_of_range_sample :
  (2 < - 2 ∨ 2 ≤ 2)
  ∧ get_replay_bucket sample_config (Some 2) sample_world
    = (Raise IndexError,
       World [] ["replays"; "bots"] [Storage.mk_client "halite" 0] []).
Proof.
  assert (Hkind : 2 < - 2 ∨ 2 ≤ 2) by lia.
  split; [exact Hkind|].
  exact (get_replay_bucket_out_of_range sample_config 2 sample_world Hkind).
Defined.

(** * Further properties *)

Local Open Scope list_scope.

(** ** Joins against a keyed table *)

(** In a table with a key, at most one row has a given key value. *)
Lemma filter_key_NoDup {A} `{EqDecision K} (key : A → K) k l :
  NoDup (key <$> l) →
  ((k ∉ key <$> l) ∧ filter (λ x, key x = k) l = [])
  ∨ (∃ x, x ∈ l ∧ key x = k ∧ filter (λ x, key x = k) l = [x]).
Proof.
  induction l as [|a l IH]; intros Hkey.
  - left. split; [apply not_elem_of_nil|done].
  - rewrite fmap_cons in Hkey. apply NoDup_cons in Hkey as [Ha Hl].
    rewrite filter_cons. destruct (decide (key a = k)) as [<-|Hne].
    + right. exists a. split_and!; [apply list_elem_of_here|done|].
      destruct (IH Hl) as [[_ ->]|(x & Hx & Hk & _)]; [done|].
      destruct Ha. rewrite <-Hk. by apply list_elem_of_fmap_2.
    + destruct (IH Hl) as [[Hk ->]|(x & Hx & Hk & ->)].
      * left. split; [|done]. rewrite fmap_cons.
        apply not_elem_of_cons. split; [done|exact Hk].
      * right. exists x. split_and!; [by apply list_elem_of_further|done..].
Qed.

Lemma outerjoin_app {A B} (on : A → B → bool) l1 l2 r :
  outerjoin on (l1 ++ l2) r = outerjoin on l1 r ++ outerjoin on l2 r.
Proof. unfold outerjoin. apply bind_app. Qed.


(** With [organizations.id] a key, the outer join on the organization
    keeps every row exactly once. *)
Lemma outerjoin_organization {A} (user : A → User.t) (x : A) orgs :
  NoDup (Organization.id <$> orgs) →
  ∃ o, outerjoin (λ a o, organization_of (user a) o) [x] orgs = [(x, o)].
Proof.
  intros Hkey. unfold outerjoin. simpl. rewrite app_nil_r.
  unfold organization_of.
  destruct (User.organization_id (user x)) as [oid|].
  - rewrite (list_filter_iff _ (λ o, Organization.id o = oid))
      by (intros o; by rewrite Is_true_true, Z.eqb_eq).
    destruct (filter_key_NoDup Organization.id oid orgs Hkey)
      as [[_ ->]|(o & _ & _ & ->)]; eauto.
  - rewrite (list_filter_iff _ (λ _, False)) by done.
    assert (Hnone : filter (λ _ : Organization.t, False) orgs = []).
    { induction orgs as [|o orgs IH]; [done|].
      rewrite filter_cons. rewrite decide_False by tauto.
      apply IH. rewrite fmap_cons in Hkey. by apply NoDup_cons in Hkey as [_ ?]. }
    rewrite Hnone. eauto.
Qed.

(** ** All bots with their users *)





(** ** Executing a ranking again *)

(** X2: the rows of the global ranking depend neither on the session it is
    executed in nor on the counter's name; executing it a second time on the
    same connection yields the same rows and leaves the session as the
    first execution left it; and no user variable but the counter is ever
    changed. *)
Theorem ranked_bots_query_reexecute variable alias db σ :
  let q := ranked_bots_query variable alias in
  (∀ variable' alias' σ',
     (execute (ranked_bots_query variable' alias') db σ').1
     = (execute q db σ).1)
  ∧ execute q db (execute q db σ).2 = execute q db σ
  ∧ ∀ v, v ≠ default "rank" variable → (execute q db σ).2 !! v = σ !! v.
Proof.
  cbv zeta. split_and!.
  - intros. by rewrite !ranked_bots_query_execute.
  - rewrite !ranked_bots_query_execute. simpl. by rewrite insert_insert_eq.
  - intros v Hv. rewrite ranked_bots_query_execute. simpl.
    by rewrite lookup_insert_ne.
Qed.

(** X3: the same holds of the select a call of
    [hackathon_ranked_bots_query] returns: its rows depend neither on the
    session nor on the counter's name, a second execution repeats the first,
    and only the counter is changed. *)
Theorem hackathon_ranked_bots_query_reexecute hid variable alias w db σ :
  ∃ q w', hackathon_ranked_bots_query hid variable alias w = (Return q, w')
    ∧ (∀ variable' alias' w0 σ',
         ∃ q0 w0', hackathon_ranked_bots_query hid variable' alias' w0
                   = (Return q0, w0')
           ∧ (execute q0 db σ').1 = (execute q db σ).1)
    ∧ execute q db (execute q db σ).2 = execute q db σ
    ∧ ∀ v, v ≠ default "hrank" variable → (execute q db σ).2 !! v = σ !! v.
Proof.
  destruct (hackathon_ranked_bots_query_run hid variable alias w)
    as (q & Hrun & _ & Hexec).
  exists q, (printed (SqlText "temptable") w). split_and!.
  - exact Hrun.
  - intros variable' alias' w0 σ'.
    destruct (hackathon_ranked_bots_query_run hid variable' alias' w0)
      as (q0 & Hrun0 & _ & Hexec0).
    exists q0, (printed (SqlText "temptable") w0). split; [exact Hrun0|].
    by rewrite Hexec0, Hexec.
  - rewrite !Hexec. simpl. by rewrite insert_insert_eq.
  - intros v Hv. rewrite Hexec. simpl. by rewrite lookup_insert_ne.
Qed.

(** ** The order of the hackathon ranking *)

(** Numbering rows that are sorted by score gives sorted rows in which a
    strictly higher score has a strictly smaller number. *)
Lemma numbered_strict {B} (mk : option Z → Bot.t → B) (score : B → Z)
    (rank : B → option Z) l :
  (∀ r b, score (mk r b) = Bot.score b) →
  (∀ r b, rank (mk r b) = r) →
  StronglySorted (score_desc Bot.score) l →
  let rows := imap (λ i, mk (Some (1 + Z.of_nat i))) l in
  StronglySorted (score_desc score) rows
  ∧ ∀ a b, a ∈ rows → b ∈ rows → score b < score a →
      ∃ ra rb, rank a = Some ra ∧ rank b = Some rb ∧ ra < rb.
Proof.
  intros Hscore Hrank Hl rows.
  assert (Hany : ∀ f : nat → option Z,
            StronglySorted (score_desc score) (imap (λ i, mk (f i)) l)).
  { clear rows. induction Hl as [|b l Hl IH Hb]; intros f; simpl; constructor.
    - apply (IH (f ∘ S)).
    - rewrite Forall_forall. intros r [i [c [-> Hc]]]%elem_of_lookup_imap.
      unfold score_desc. simpl. rewrite !Hscore.
      rewrite Forall_forall in Hb. apply (Hb c).
      apply list_elem_of_lookup; eauto. }
  pose proof (Hany (λ i, Some (1 + Z.of_nat i))) as Hsorted.
  fold rows in Hsorted.
  split; [exact Hsorted|].
  intros a b [i Hi]%list_elem_of_lookup [j Hj]%list_elem_of_lookup Hlt.
  destruct (numbered_lookup _ _ _ _ Hi) as (x & Hx & ->).
  destruct (numbered_lookup _ _ _ _ Hj) as (y & Hy & ->).
  rewrite !Hrank. eexists _, _. split_and!; [done..|].
  destruct (decide (i < j)%nat); [lia|].
  destruct (decide (i = j)) as [->|]; [simplify_eq; lia|].
  assert (j < i)%nat as Hji by lia.
  pose proof (StronglySorted_lookup _ _ _ _ _ _ Hsorted Hj Hi Hji) as Hle.
  unfold score_desc in Hle. lia.
Qed.

(** X4: the rows of the hackathon ranking come in descending score order,
    and of two ranked bots the one with the strictly higher score has the
    strictly smaller [local_rank]. *)
Theorem hackathon_ranked_bots_query_order hid variable alias w db σ :
  ∃ q w', hackathon_ranked_bots_query hid variable alias w = (Return q, w')
    ∧ let rows := (execute q db σ).1 in
      StronglySorted (score_desc HackathonRankedBot.score) rows
      ∧ ∀ a b, a ∈ rows → b ∈ rows →
          HackathonRankedBot.score b < HackathonRankedBot.score a →
          ∃ ra rb, HackathonRankedBot.local_rank a = Some ra
                 ∧ HackathonRankedBot.local_rank b = Some rb ∧ ra < rb.
Proof.
  destruct (hackathon_ranked_bots_query_run hid variable alias w)
    as (q & Hrun & _ & Hexec).
  exists q, (printed (SqlText "temptable") w). split; [exact Hrun|].
  rewrite Hexec. simpl.
  apply (numbered_strict HackathonRankedBot.of_bot); [done|done|].
  apply order_by_desc_sorted.
Qed.

(** ** Global and local rank side by side *)

Lemma key_inj {A} `{EqDecision K} (key : A → K) l x y :
  NoDup (key <$> l) → x ∈ l → y ∈ l → key x = key y → x = y.
Proof.
  intros Hkey Hx Hy Hxy.
  destruct (filter_key_NoDup key (key x) l Hkey)
    as [[Hno _]|(z & _ & _ & Hz)].
  - destruct Hno. by apply list_elem_of_fmap_2.
  - assert (x ∈ filter (λ a, key a = key x) l) as Hx'
      by by apply list_elem_of_filter.
    assert (y ∈ filter (λ a, key a = key x) l) as Hy'
      by by apply list_elem_of_filter.
    rewrite Hz in Hx', Hy'.
    apply list_elem_of_singleton in Hx', Hy'. congruence.
Qed.

Lemma local_ranking_unfold hid db :
  local_ranking hid db
  = imap (λ i, HackathonRankedBot.of_bot (Some (1 + Z.of_nat i)))
      (order_by_desc Bot.score
         (join (participates hid) (bots db) (hackathon_participants db)).*1).
Proof.
  unfold local_ranking.
  destruct (hackathon_ranked_bots_query_run hid None None (World [] [] [] []))
    as (q & Hrun & _ & Hexec).
  by rewrite Hrun, Hexec.
Qed.

(** The local ranking holds the bots of the hackathon's participants,
    whatever they have played. *)
Lemma elem_of_local_ranking_bot hid db b :
  (∃ l, l ∈ local_ranking hid db ∧ HackathonRankedBot.bot l = b)
  ↔ b ∈ bots db
    ∧ HackathonParticipant.mk hid (Bot.user_id b) ∈ hackathon_participants db.
Proof.
  rewrite local_ranking_unfold.
  assert (Hjoined : b ∈ (join (participates hid) (bots db)
                           (hackathon_participants db)).*1
            ↔ b ∈ bots db
              ∧ HackathonParticipant.mk hid (Bot.user_id b)
                ∈ hackathon_participants db).
  { rewrite list_elem_of_fmap. split.
    - intros ([b' p] & -> & (Hb & Hp & Hon)%elem_of_join).
      apply participates_iff in Hon as ->. done.
    - intros [Hb Hp]. eexists (b, _). split; [done|].
      apply elem_of_join. split_and!; [done|exact Hp|].
      by apply participates_iff. }
  rewrite <-Hjoined. clear Hjoined.
  set (joined := (join (participates hid) (bots db)
                    (hackathon_participants db)).*1).
  assert (Hperm : b ∈ order_by_desc Bot.score joined ↔ b ∈ joined)
    by by rewrite order_by_desc_perm.
  rewrite <-Hperm. split.
  - intros (l & (i & c & -> & Hc)%elem_of_lookup_imap & <-).
    rewrite hackathon_ranked_bot_of_bot. apply list_elem_of_lookup; eauto.
  - intros [i Hi]%list_elem_of_lookup. eexists. split.
    + by apply elem_of_lookup_imap_2.
    + apply hackathon_ranked_bot_of_bot.
Qed.

Lemma elem_of_global_ranking_bot db b :
  (∃ g, g ∈ global_ranking db ∧ RankedBot.bot g = b) ↔ b ∈ bots db.
Proof.
  rewrite <-(global_ranking_bots db), list_elem_of_fmap. split.
  - intros (g & Hg & <-). by exists g.
  - intros (g & -> & Hg). by exists g.
Qed.

Lemma global_ranking_strict db a b :
  a ∈ global_ranking db → b ∈ global_ranking db →
  RankedBot.score b < RankedBot.score a →
  ∃ ra rb, RankedBot.bot_rank a = Some ra
         ∧ RankedBot.bot_rank b = Some rb ∧ ra < rb.
Proof.
  rewrite global_ranking_unfold.
  apply (numbered_strict RankedBot.of_bot); [done|done|].
  apply order_by_desc_sorted.
Qed.


(** Where a row of the composite comes from, column by column. *)
Lemma elem_of_hackathon_ranked_bots_users_rows rb us lr orgs row :
  row ∈ hackathon_ranked_bots_users_rows rb us lr orgs ↔
  ∃ g u l o,
    g ∈ rb ∧ u ∈ us ∧ l ∈ lr
    ∧ RankedBot.user_id g = User.id u
    ∧ HackathonRankedBot.user_id l = RankedBot.user_id g
    ∧ HackathonRankedBot.bot_id l = RankedBot.bot_id g
    ∧ match o with
      | Some x => x ∈ orgs ∧ organization_of u x
      | None => ∀ x, x ∈ orgs → ¬ organization_of u x
      end
    ∧ row = HackathonRankedBotUser.mk
        (User.id u) (User.username u) (User.player_level u)
        (User.organization_id u) (Organization.organization_name <$> o)
        (User.country_code u) (User.country_subdivision_code u)
        (RankedBot.bot_id g) (RankedBot.games_played g)
        (RankedBot.version_number g) (RankedBot.mu g) (RankedBot.score g)
        (RankedBot.language g)
        (RankedBot.bot_rank g) (HackathonRankedBot.local_rank l).
Proof.
  unfold hackathon_ranked_bots_users_rows. rewrite list_elem_of_fmap.
  assert (Hsame : ∀ g u l, same_bot (g, u) l
            ↔ HackathonRankedBot.user_id l = RankedBot.user_id g
              ∧ HackathonRankedBot.bot_id l = RankedBot.bot_id g).
  { intros g u l. unfold same_bot. simpl.
    by rewrite andb_True, !Is_true_true, !Z.eqb_eq. }
  split.
  - intros ([[[g u] l] o] & -> & Hin).
    apply elem_of_outerjoin in Hin as [Hin Ho].
    apply elem_of_join in Hin as (Hgu & Hl & [? ?]%Hsame).
    apply elem_of_join in Hgu as (Hg & Hu & Hown%owned_by_iff).
    exists g, u, l, o. split_and!; done.
  - intros (g & u & l & o & Hg & Hu & Hl & Hown & Huid & Hbid & Ho & ->).
    exists (g, u, l, o). split; [done|].
    apply elem_of_outerjoin. split; [|done].
    apply elem_of_join. split_and!; [|done|by apply Hsame].
    apply elem_of_join. split_and!; [done|done|by apply owned_by_iff].
Qed.

(** An outer join keeps every row of its left side. *)
Lemma outerjoin_total {A B} (on : A → B → bool) (r : list B) a :
  ∃ o : option B,
    match o with
    | Some b => b ∈ r ∧ on a b
    | None => ∀ b, b ∈ r → ¬ on a b
    end.
Proof.
  destruct (filter (λ b, on a b) r) as [|b m] eqn:Hf.
  - exists None. intros b Hb Hon.
    assert (b ∈ filter (λ b, on a b) r) as Hin
      by by apply list_elem_of_filter.
    rewrite Hf in Hin. by apply not_elem_of_nil in Hin.
  - exists (Some b).
    assert (b ∈ filter (λ b, on a b) r) as Hin
      by (rewrite Hf; apply list_elem_of_here).
    apply list_elem_of_filter in Hin as [? ?]. done.
Qed.



(** X6: whether it has played or not, a bot is listed by the composite
    exactly when its owner takes part in the hackathon and has a user row:
    the pair [(user_id, bot_id)] occurs in the result if and only if it is
    the pair of a bot row whose owner is a participant and a user. *)
Theorem hackathon_ranked_bots_users_query_lists hid alias w db σ :
  ∃ q w', hackathon_ranked_bots_users_query hid alias w = (Return q, w')
    ∧ ∀ uid bid,
        (∃ row, row ∈ (execute q db σ).1
              ∧ HackathonRankedBotUser.user_id row = uid
              ∧ HackathonRankedBotUser.bot_id row = bid)
        ↔ (∃ b, b ∈ bots db ∧ Bot.user_id b = uid ∧ Bot.id b = bid)
          ∧ HackathonParticipant.mk hid uid ∈ hackathon_participants db
          ∧ (∃ u, u ∈ users db ∧ User.id u = uid).
Proof.
  destruct (hackathon_ranked_bots_users_query_run hid alias w)
    as (q & Hrun & Hexec).
  exists q, (printed (SqlText "temptable") w). split; [exact Hrun|].
  intros uid bid. rewrite Hexec. split.
  - intros (row & Hrow & <- & <-).
    apply elem_of_hackathon_ranked_bots_users_rows in Hrow
      as (g & u & l & o & Hg & Hu & Hl & Hown & Huid & Hbid & _ & ->).
    simpl.
    assert (HackathonRankedBot.bot l ∈ bots db
            ∧ HackathonParticipant.mk hid
                (Bot.user_id (HackathonRankedBot.bot l))
              ∈ hackathon_participants db) as [Hlb Hp]
      by (apply (elem_of_local_ranking_bot hid); by exists l).
    simpl in Hp. split_and!.
    + exists (HackathonRankedBot.bot l). split_and!; [done|simpl..]; congruence.
    + by rewrite <-Hown, <-Huid.
    + by exists u.
  - intros ((b & Hb & <- & <-) & Hp & (u & Hu & Hid)).
    destruct (proj2 (elem_of_global_ranking_bot db b) Hb) as (g & Hg & Hgb).
    destruct (proj2 (elem_of_local_ranking_bot hid db b) (conj Hb Hp))
      as (l & Hl & Hlb).
    destruct (outerjoin_total (λ '((_, u0, _) : RankedBot.t * User.t
                                      * HackathonRankedBot.t) o,
                 organization_of u0 o) (organizations db) (g, u, l))
      as [o Ho].
    subst b. eexists. split.
    + apply elem_of_hackathon_ranked_bots_users_rows.
      exists g, u, l, o. split_and!; [done|done|done| | | |exact Ho|done].
      * by rewrite Hid.
      * exact (f_equal Bot.user_id Hlb).
      * exact (f_equal Bot.id Hlb).
    + simpl. split; [exact Hid|reflexivity].
Qed.

(** ** Ranked bots and bots that have played *)

Lemma length_filter_fmap {A B} (f : A → B) (P : B → Prop)
    `{∀ y, Decision (P y)} (l : list A) :
  length (filter P (f <$> l)) = length (filter (λ x, P (f x)) l).
Proof.
  induction l as [|a l IH]; [done|].
  rewrite fmap_cons, !filter_cons.
  destruct (decide (P (f a))); simpl; by rewrite IH.
Qed.

Lemma length_filter_all {A} (P : A → Prop) `{∀ x, Decision (P x)} l :
  length (filter P l) = length l ↔ ∀ x, x ∈ l → P x.
Proof.
  split.
  - intros Hlen x Hx. destruct (decide (P x)) as [|Hno]; [done|].
    pose proof (length_filter_lt P l x Hx Hno). lia.
  - intros Hall. induction l as [|a l IH]; [done|].
    rewrite filter_cons, decide_True by apply Hall, list_elem_of_here.
    simpl. f_equal. apply IH. intros x Hx.
    by apply Hall, list_elem_of_further.
Qed.

(** X7: the ranking numbers every bot, also those that have played no
    game, while [total_ranked_bots] counts only the ranked rows with
    [games_played > 0]; so the total never exceeds the number of ranks
    given out, and the two are equal exactly when every bot has played. *)
Theorem total_ranked_bots_le_ranked db :
  total_ranked_bots db
  = Z.of_nat (length (filter (λ r, RankedBot.games_played r > 0)
                        (global_ranking db)))
  ∧ total_ranked_bots db ≤ Z.of_nat (length (global_ranking db))
  ∧ (total_ranked_bots db = Z.of_nat (length (global_ranking db))
     ↔ ∀ b, b ∈ bots db → Bot.games_played b > 0).
Proof.
  unfold total_ranked_bots, count_star.
  assert (Hlen : length (global_ranking db) = length (bots db)).
  { rewrite <-(global_ranking_bots db). by rewrite length_fmap. }
  split_and!.
  - f_equal. rewrite <-(global_ranking_bots db) at 1.
    rewrite (length_filter_fmap RankedBot.bot (λ b, Bot.games_played b > 0)).
    reflexivity.
  - rewrite Hlen.
    pose proof (length_filter (λ b, Bot.games_played b > 0) (bots db)). lia.
  - rewrite Hlen, Nat2Z.inj_iff. apply length_filter_all.
Qed.

(** ** One rank per bot *)

(** X8: with [bots.id] a key, the global ranking holds one row per bot id,
    so the rank of a bot is determined by its id. *)
Theorem global_ranking_rank_unique db r1 r2 :
  NoDup (Bot.id <$> bots db) →
  r1 ∈ global_ranking db → r2 ∈ global_ranking db →
  RankedBot.bot_id r1 = RankedBot.bot_id r2 →
  r1 = r2.
Proof.
  intros Hkey H1 H2 Hid.
  assert (Hids : NoDup (RankedBot.bot_id <$> global_ranking db)).
  { assert (RankedBot.bot_id <$> global_ranking db
            ≡ₚ Bot.id <$> bots db) as ->; [|done].
    rewrite <-(global_ranking_bots db), <-list_fmap_compose. done. }
  by apply (key_inj RankedBot.bot_id (global_ranking db)).
Qed.

Lemma global_ranking_rank_unique_sample :
  let r := RankedBot.mk (Some 1) 2 11 30 9 0 2 (Some "Python") in
  NoDup (Bot.id <$> bots sample_db)
  ∧ r ∈ global_ranking sample_db
  ∧ RankedBot.bot_id r = RankedBot.bot_id r
  ∧ r = r.
Proof.
  intros r.
  assert (Hkey : NoDup (Bot.id <$> bots sample_db)) by by_computation.
  assert (Hr : r ∈ global_ranking sample_db)
    by (apply list_elem_of_lookup; exists 0%nat; vm_compute; reflexivity).
  split; [exact Hkey|]. split; [exact Hr|]. split; [reflexivity|].
  exact (global_ranking_rank_unique sample_db r r Hkey Hr Hr eq_refl).
Defined.

(** ** The summary, user by user *)

Lemma foldl_max_spec xs x :
  foldl Z.max x xs ∈ x :: xs ∧ ∀ y, y ∈ x :: xs → y ≤ foldl Z.max x xs.
Proof.
  revert x. induction xs as [|z xs IH]; intros x; simpl.
  - split; [apply list_elem_of_here|].
    intros y ->%list_elem_of_singleton. lia.
  - destruct (IH (Z.max x z)) as [Hin Hle]. split.
    + apply elem_of_cons in Hin as [Heq|Hin].
      * rewrite Heq. destruct (Z.max_spec x z) as [[_ ->]|[_ ->]].
        -- apply list_elem_of_further, list_elem_of_here.
        -- apply list_elem_of_here.
      * by do 2 apply list_elem_of_further.
    + intros y Hy.
      assert (Z.max x z ≤ foldl Z.max (Z.max x z) xs) as Hm
        by apply Hle, list_elem_of_here.
      apply elem_of_cons in Hy as [->|Hy]; [lia|].
      apply elem_of_cons in Hy as [->|Hy]; [lia|].
      by apply Hle, list_elem_of_further.
Qed.

(** [max] is the greatest of the values that are not NULL, when there is
    one. *)
Lemma max__Some l m :
  max_ l = Some m ↔ Some m ∈ l ∧ ∀ y, Some y ∈ l → y ≤ m.
Proof.
  unfold max_, agg. setoid_rewrite <-elem_of_non_null.
  destruct (non_null l) as [|x xs].
  - split; [done|]. intros [[]%not_elem_of_nil _].
  - destruct (foldl_max_spec xs x) as [Hin Hle]. split.
    + by intros [= <-].
    + intros [Hm Hmle]. f_equal.
      pose proof (Hle m Hm). pose proof (Hmle _ Hin). lia.
Qed.

(** The rows [all_users] groups: every user, with each of its ranked bots
    or alone, and with its organization if it has one. *)
Lemma elem_of_all_users_from db u r o :
  (u, r, o) ∈ outerjoin (λ '(u, _) o, organization_of u o)
                (outerjoin owned_by (users db) (global_ranking db))
                (organizations db)
  ↔ u ∈ users db
    ∧ match r with
      | Some r => r ∈ global_ranking db ∧ RankedBot.user_id r = User.id u
      | None => ∀ r, r ∈ global_ranking db → RankedBot.user_id r ≠ User.id u
      end
    ∧ match o with
      | Some o => o ∈ organizations db ∧ organization_of u o
      | None => ∀ o, o ∈ organizations db → ¬ organization_of u o
      end.
Proof.
  rewrite elem_of_outerjoin, elem_of_outerjoin.
  assert (Hr : match r with
               | Some b => b ∈ global_ranking db ∧ owned_by u b
               | None => ∀ b, b ∈ global_ranking db → ¬ owned_by u b
               end
               ↔ match r with
                 | Some r => r ∈ global_ranking db
                             ∧ RankedBot.user_id r = User.id u
                 | None => ∀ r, r ∈ global_ranking db →
                                RankedBot.user_id r ≠ User.id u
                 end).
  { destruct r as [r|]; [by rewrite owned_by_iff|].
    by setoid_rewrite owned_by_iff. }
  rewrite Hr. tauto.
Qed.

(** What stands behind a row of [all_users]: the group of one user. *)
Lemma all_users_rows_inv db σ row :
  row ∈ (execute all_users db σ).1 →
  ∃ g u0 r0 o0,
    all_users_row g = Some row
    ∧ head g = Some (u0, r0, o0)
    ∧ u0 ∈ users db
    ∧ ∀ r, (∃ u o, (u, Some r, o) ∈ g)
           ↔ r ∈ global_ranking db ∧ RankedBot.user_id r = User.id u0.
Proof.
  rewrite all_users_execute.
  intros (g & Hg & Hrow)%list_elem_of_omap.
  apply group_by_head in Hg as ([[u0 r0] o0] & Hhead & Hx & Heq).
  apply elem_of_all_users_from in Hx as (Hu0 & _ & Ho0).
  exists g, u0, r0, o0. split_and!; [done..|].
  intros r. rewrite Heq. split.
  - intros (u & o & [Hk Hin]%list_elem_of_filter). simpl in Hk.
    apply elem_of_all_users_from in Hin as (_ & [Hr Hid] & _).
    split; [done|congruence].
  - intros [Hr Hid].
    destruct (outerjoin_total
                (λ '((u, _) : User.t * option RankedBot.t) o,
                   organization_of u o)
                (organizations db) (u0, Some r)) as [o Ho].
    exists u0, o. apply list_elem_of_filter. split; [done|].
    apply elem_of_all_users_from. done.
Qed.

(** The values under an aggregate of [all_users], for one group. *)
Lemma all_users_column {B} (f : RankedBot.t → option B)
    (g : list (User.t * option RankedBot.t * option Organization.t))
    (P : RankedBot.t → Prop) y :
  (∀ r, (∃ u o, (u, Some r, o) ∈ g) ↔ P r) →
  Some y ∈ (λ '(_, r, _), r ≫= f) <$> g ↔ ∃ r, P r ∧ f r = Some y.
Proof.
  intros Hg. rewrite list_elem_of_fmap. split.
  - intros ([[u [r|]] o] & Hy & Hin); [|done].
    exists r. split; [|done]. apply Hg. eauto.
  - intros (r & (u & o & Hin)%Hg & Hy). by exists (u, Some r, o).
Qed.

(** X9: [all_users] has exactly one row per user id, for every user, with
    or without bots. *)
Theorem all_users_one_row_per_user db σ :
  let rows := (execute all_users db σ).1 in
  NoDup (AllUsers.user_id <$> rows)
  ∧ ∀ uid, uid ∈ AllUsers.user_id <$> rows
           ↔ ∃ u, u ∈ users db ∧ User.id u = uid.
Proof.
  cbv zeta. rewrite all_users_execute.
  set (from := outerjoin _ _ _).
  set (key := λ '((u, _, _) : User.t * option RankedBot.t
                              * option Organization.t), User.id u).
  assert (Hkeys : AllUsers.user_id <$> omap all_users_row (group_by key from)
                  = remove_dups (key <$> from)).
  { apply group_by_keys. intros g [[u r] o] Hhead.
    unfold all_users_row. rewrite Hhead. simpl. eauto. }
  rewrite Hkeys. split; [apply NoDup_remove_dups|].
  intros uid. rewrite elem_of_remove_dups, list_elem_of_fmap. split.
  - intros ([[u r] o] & -> & Hin).
    apply elem_of_all_users_from in Hin as (Hu & _). by exists u.
  - intros (u & Hu & <-).
    destruct (outerjoin_total owned_by (global_ranking db) u) as [r Hr].
    destruct (outerjoin_total
                (λ '((u, _) : User.t * option RankedBot.t) o,
                   organization_of u o)
                (organizations db) (u, r)) as [o Ho].
    exists (u, r, o). split; [done|].
    unfold from. rewrite elem_of_outerjoin, elem_of_outerjoin. done.
Qed.

(** X10: in the row of a user that owns a bot, [rank] and [score] are those
    of one and the same bot of that user, its best: no bot of the user has
    a smaller rank or a higher score in the global ranking. *)
Theorem all_users_best_bot db σ row :
  row ∈ (execute all_users db σ).1 →
  (∃ b, b ∈ bots db ∧ Bot.user_id b = AllUsers.user_id row) →
  ∃ best m,
    best ∈ global_ranking db
    ∧ RankedBot.user_id best = AllUsers.user_id row
    ∧ RankedBot.bot_rank best = Some m
    ∧ AllUsers.rank row = Some m
    ∧ AllUsers.score row = RankedBot.score best
    ∧ ∀ r, r ∈ global_ranking db →
           RankedBot.user_id r = AllUsers.user_id row →
           RankedBot.score r ≤ RankedBot.score best
           ∧ ∃ m', RankedBot.bot_rank r = Some m' ∧ m ≤ m'.
Proof.
  intros (g & u0 & r0 & o0 & Hrow & Hhead & Hu0 & Hg)%all_users_rows_inv.
  unfold all_users_row in Hrow. rewrite Hhead in Hrow. simpl in Hrow.
  injection Hrow as <-. simpl.
  intros (r1 & Hr1 & Hid1)%global_ranking_owner.
  destruct (global_ranking_ranked db r1 Hr1) as [m1 Hm1].
  pose proof (λ y, all_users_column RankedBot.bot_rank g _ y Hg) as Hranks.
  pose proof (λ y, all_users_column (λ r, Some (RankedBot.score r)) g _ y Hg)
    as Hscores.
  destruct (min_ ((λ '(_, r, _), r ≫= RankedBot.bot_rank) <$> g))
    as [m|] eqn:Hmin; cycle 1.
  { exfalso. apply (proj1 (agg_None _ _) Hmin m1), Hranks. by exists r1. }
  destruct (max_ ((λ '(_, r, _), r ≫= λ r, Some (RankedBot.score r)) <$> g))
    as [s|] eqn:Hmax; cycle 1.
  { exfalso. apply (proj1 (agg_None _ _) Hmax (RankedBot.score r1)), Hscores.
    by exists r1. }
  apply min__Some in Hmin as [Hm Hle]. apply max__Some in Hmax as [Hs Hge].
  apply Hranks in Hm as (best & [Hbest Hbid] & Hbm).
  apply Hscores in Hs as (top & [Htop Htid] & [= Hts]).
  assert (Hbest_score : RankedBot.score best = s).
  { assert (RankedBot.score best ≤ s) as Hle1
      by (apply Hge, Hscores; by exists best).
    destruct (decide (RankedBot.score best < s)) as [Hlt|]; [|lia].
    rewrite <-Hts in Hlt.
    destruct (global_ranking_strict db top best Htop Hbest Hlt)
      as (mt & mb & Hmt & Hmb & Hlt').
    assert (m ≤ mt) by (apply Hle, Hranks; by exists top).
    rewrite Hbm in Hmb. injection Hmb as <-. lia. }
  exists best, m. unfold coalesce. simpl.
  split_and!; [done..|].
  intros r Hr Hid. split.
  - rewrite Hbest_score. apply Hge, Hscores. by exists r.
  - destruct (global_ranking_ranked db r Hr) as [m' Hm'].
    exists m'. split; [done|]. apply Hle, Hranks. by exists r.
Qed.

Lemma all_users_best_bot_sample :
  let row := AllUsers.mk 1 "ada" "Professional" None None None None None
               2 4 2 5 (Some 3) in
  row ∈ (execute all_users sample_db ∅).1
  ∧ (∃ b, b ∈ bots sample_db ∧ Bot.user_id b = AllUsers.user_id row)
  ∧ ∃ best m,
      best ∈ global_ranking sample_db
      ∧ RankedBot.user_id best = AllUsers.user_id row
      ∧ RankedBot.bot_rank best = Some m
      ∧ AllUsers.rank row = Some m
      ∧ AllUsers.score row = RankedBot.score best
      ∧ ∀ r, r ∈ global_ranking sample_db →
             RankedBot.user_id r = AllUsers.user_id row →
             RankedBot.score r ≤ RankedBot.score best
             ∧ ∃ m', RankedBot.bot_rank r = Some m' ∧ m ≤ m'.
Proof.
  intros row.
  assert (Hrow : row ∈ (execute all_users sample_db ∅).1)
    by (apply list_elem_of_lookup; exists 0%nat; vm_compute; reflexivity).
  assert (Hbot : ∃ b, b ∈ bots sample_db
                      ∧ Bot.user_id b = AllUsers.user_id row)
    by (eexists; split; [apply list_elem_of_here|reflexivity]).
  split; [exact Hrow|]. split; [exact Hbot|].
  exact (all_users_best_bot sample_db ∅ row Hrow Hbot).
Defined.

(** ** The counts of the summary *)

Lemma filter_all {A} (P : A → Prop) `{∀ x, Decision (P x)} (l : list A) :
  (∀ x, x ∈ l → P x) → filter P l = l.
Proof.
  induction l as [|a l IH]; intros Hall; [done|].
  rewrite filter_cons, decide_True by apply Hall, list_elem_of_here.
  f_equal. apply IH. intros x Hx. by apply Hall, list_elem_of_further.
Qed.

Lemma filter_none {A} (P : A → Prop) `{∀ x, Decision (P x)} (l : list A) :
  (∀ x, x ∈ l → ¬ P x) → filter P l = [].
Proof.
  induction l as [|a l IH]; intros Hnone; [done|].
  rewrite filter_cons, decide_False by apply Hnone, list_elem_of_here.
  apply IH. intros x Hx. by apply Hnone, list_elem_of_further.
Qed.

Lemma filter_fmap {A B} (f : A → B) (P : B → Prop) (Q : A → Prop)
    `{∀ y, Decision (P y)} `{∀ x, Decision (Q x)} (l : list A) :
  (∀ x, Q x ↔ P (f x)) →
  filter P (f <$> l) = f <$> filter Q l.
Proof.
  intros HPQ. induction l as [|a l IH]; [done|].
  rewrite fmap_cons, !filter_cons.
  destruct (decide (P (f a))) as [HP|HP].
  - rewrite decide_True by by apply HPQ. by rewrite fmap_cons, IH.
  - rewrite decide_False by by rewrite HPQ. done.
Qed.

Lemma sum_Z_perm l1 l2 : l1 ≡ₚ l2 → sum_Z l1 = sum_Z l2.
Proof.
  unfold sum_Z.
  induction 1 as [|x l1 l2 _ IH|x y l|l1 l2 l3 _ IH1 _ IH2]; simpl; lia.
Qed.

Lemma foldl_add a xs : foldl Z.add a xs = a + sum_Z xs.
Proof.
  revert a. induction xs as [|x xs IH]; intros a; simpl; [lia|].
  rewrite IH. unfold sum_Z. simpl. lia.
Qed.

Lemma non_null_Some {A} (xs : list A) : non_null (Some <$> xs) = xs.
Proof.
  unfold non_null. induction xs as [|x xs IH]; [done|].
  rewrite fmap_cons. simpl. f_equal. exact IH.
Qed.

(** [coalesce(sum(c), 0)] over values none of which is NULL is their sum,
    0 when there is none. *)
Lemma coalesce_sum xs : coalesce (sum_ (Some <$> xs)) 0 = sum_Z xs.
Proof.
  unfold sum_, agg. rewrite non_null_Some.
  destruct xs as [|x xs]; [done|]. simpl. apply foldl_add.
Qed.

(** With [organizations.id] a key, joining the organizations on neither
    adds nor drops a row. *)
Lemma outerjoin_organization_fst {A} (l : list (User.t * A)) orgs :
  NoDup (Organization.id <$> orgs) →
  (outerjoin (λ '(u, _) o, organization_of u o) l orgs).*1 = l.
Proof.
  intros Hkey. induction l as [|[u a] l IH]; [done|].
  change ((u, a) :: l) with ([(u, a)] ++ l) at 1.
  rewrite outerjoin_app, fmap_app, IH.
  destruct (outerjoin_organization fst (u, a) orgs Hkey) as [o Ho].
  assert (Hrow : outerjoin (λ '((u0, _) : User.t * A) o0,
                              organization_of u0 o0) [(u, a)] orgs
                 = [(u, a, o)]).
  { rewrite <-Ho. unfold outerjoin. f_equal. }
  by rewrite Hrow.
Qed.

(** With [users.id] a key, the rows of one user in the join of users and
    ranking are that user joined with the ranking. *)
Lemma outerjoin_one_user us rb u0 :
  NoDup (User.id <$> us) → u0 ∈ us →
  filter (λ x, User.id x.1 = User.id u0) (outerjoin owned_by us rb)
  = outerjoin owned_by [u0] rb.
Proof.
  assert (Hfst : ∀ l x, x ∈ outerjoin owned_by l rb → x.1 ∈ l).
  { intros l [u r] Hx. by apply elem_of_outerjoin in Hx as [? _]. }
  induction us as [|u us IH]; intros Hkey Hu0.
  { by apply not_elem_of_nil in Hu0. }
  rewrite fmap_cons in Hkey. apply NoDup_cons in Hkey as [Hu Hus].
  change (u :: us) with ([u] ++ us).
  rewrite outerjoin_app, filter_app.
  apply elem_of_cons in Hu0 as [->|Hu0].
  - rewrite filter_all, filter_none, app_nil_r; [done| |].
    + intros x Hx%Hfst Hid. destruct Hu. rewrite <-Hid.
      by apply list_elem_of_fmap_2.
    + intros x Hx%Hfst. by apply list_elem_of_singleton in Hx as ->.
  - rewrite filter_none; [by rewrite IH|].
    intros x Hx%Hfst Hid. apply list_elem_of_singleton in Hx.
    destruct Hu. rewrite <-Hx, Hid. by apply list_elem_of_fmap_2.
Qed.

Lemma outerjoin_singleton {A B} (on : A → B → bool) a r :
  outerjoin on [a] r
  = match filter (λ b, on a b) r with
    | [] => [(a, None)]
    | m => (λ b, (a, Some b)) <$> m
    end.
Proof. unfold outerjoin. simpl. apply app_nil_r. Qed.

(** X11: with [users.id] and [organizations.id] keys of their tables, the
    row of a user reports as [num_games] and [num_submissions] the sums of
    [games_played] and [version_number] over the user's bots, and as
    [num_bots] the number of those bots, except that a user without bots
    is reported with 1. *)
Theorem all_users_counts db σ row :
  NoDup (User.id <$> users db) →
  NoDup (Organization.id <$> organizations db) →
  row ∈ (execute all_users db σ).1 →
  let mine := filter (λ b, Bot.user_id b = AllUsers.user_id row) (bots db) in
  AllUsers.num_bots row = Z.max 1 (Z.of_nat (length mine))
  ∧ AllUsers.num_games row = sum_Z (Bot.games_played <$> mine)
  ∧ AllUsers.num_submissions row = sum_Z (Bot.version_number <$> mine).
Proof.
  intros Hus Horgs Hrow. rewrite all_users_execute in Hrow.
  apply list_elem_of_omap in Hrow as (g & Hg & Hrow).
  apply group_by_head in Hg as ([[u0 r0] o0] & Hhead & Hx & Heq).
  apply elem_of_outerjoin in Hx as [Hx _].
  apply elem_of_outerjoin in Hx as [Hu0 _].
  unfold all_users_row in Hrow. rewrite Hhead in Hrow. simpl in Hrow.
  injection Hrow as <-. simpl.
  set (ranked := filter (λ r, RankedBot.user_id r = User.id u0)
                   (global_ranking db)).
  assert (Hmine : ∀ f : Bot.t → Z,
            (λ r, f (RankedBot.bot r)) <$> ranked
            ≡ₚ f <$> filter (λ b, Bot.user_id b = User.id u0) (bots db)).
  { intros f. rewrite <-(global_ranking_bots db).
    rewrite (filter_fmap RankedBot.bot (λ b, Bot.user_id b = User.id u0)
               (λ r, RankedBot.user_id r = User.id u0)) by done.
    by rewrite <-list_fmap_compose. }
  assert (Hg1 : g.*1 = outerjoin owned_by [u0] (global_ranking db)).
  { rewrite Heq.
    rewrite (list_filter_iff _ (λ x, User.id x.1.1 = User.id u0))
      by (by intros [[u r] o]).
    rewrite <-(outerjoin_one_user (users db)) by done.
    rewrite <-(outerjoin_organization_fst
                 (outerjoin owned_by (users db) (global_ranking db))
                 (organizations db)) at 2 by done.
    symmetry. by apply filter_fmap. }
  assert (Hcol : ∀ f : RankedBot.t → Z,
            coalesce (sum_ ((λ '(_, r, _), r ≫= λ r, Some (f r)) <$> g)) 0
            = sum_Z (f <$> ranked)).
  { intros f. rewrite <-coalesce_sum.
    assert ((λ '(_, r, _), r ≫= λ r, Some (f r)) <$> g
            = (λ x, x.2 ≫= λ r, Some (f r)) <$> g.*1) as ->.
    { rewrite <-list_fmap_compose. apply list_fmap_ext.
      by intros _ [[u r] o] _. }
    rewrite Hg1, outerjoin_singleton.
    rewrite (list_filter_iff _ (λ r, RankedBot.user_id r = User.id u0))
      by (intros r; apply owned_by_iff).
    fold ranked. destruct ranked as [|r1 rest] eqn:Hranked; [done|].
    by rewrite <-!list_fmap_compose. }
  split_and!.
  - unfold coalesce, count_star. simpl.
    rewrite <-(length_fmap fst g), Hg1.
    rewrite <-(length_fmap Bot.user_id (filter _ (bots db))).
    rewrite <-(Hmine Bot.user_id), length_fmap.
    rewrite outerjoin_singleton.
    rewrite (list_filter_iff _ (λ r, RankedBot.user_id r = User.id u0))
      by (intros r; apply owned_by_iff).
    fold ranked. destruct ranked as [|r1 rest]; [done|].
    rewrite length_fmap. simpl. lia.
  - rewrite (Hcol RankedBot.games_played).
    apply sum_Z_perm, (Hmine Bot.games_played).
  - rewrite (Hcol RankedBot.version_number).
    apply sum_Z_perm, (Hmine Bot.version_number).
Qed.

Lemma all_users_counts_sample :
  let row := AllUsers.mk 1 "ada" "Professional" None None None None None
               2 4 2 5 (Some 3) in
  let mine := filter (λ b, Bot.user_id b = AllUsers.user_id row)
                (bots sample_db) in
  NoDup (User.id <$> users sample_db)
  ∧ NoDup (Organization.id <$> organizations sample_db)
  ∧ row ∈ (execute all_users sample_db ∅).1
  ∧ AllUsers.num_bots row = Z.max 1 (Z.of_nat (length mine))
  ∧ AllUsers.num_games row = sum_Z (Bot.games_played <$> mine)
  ∧ AllUsers.num_submissions row = sum_Z (Bot.version_number <$> mine).
Proof.
  intros row mine.
  assert (Hus : NoDup (User.id <$> users sample_db)) by by_computation.
  assert (Horgs : NoDup (Organization.id <$> organizations sample_db))
    by by_computation.
  assert (Hrow : row ∈ (execute all_users sample_db ∅).1)
    by (apply list_elem_of_lookup; exists 0%nat; vm_compute; reflexivity).
  split; [exact Hus|]. split; [exact Horgs|]. split; [exact Hrow|].
  exact (all_users_counts sample_db ∅ row Hus Horgs Hrow).
Defined.

(** ** Ranked users against the summary *)

(** [min] only looks at which values occur. *)
Lemma min__ext l1 l2 :
  (∀ y, Some y ∈ l1 ↔ Some y ∈ l2) → min_ l1 = min_ l2.
Proof.
  intros Hext. destruct (min_ l1) as [m|] eqn:H1.
  - symmetry. apply min__Some. apply min__Some in H1 as [Hm Hle].
    split; [by apply Hext|]. intros y Hy. by apply Hle, Hext.
  - symmetry. apply agg_None. intros y Hy.
    by apply (proj1 (agg_None _ _) H1 y), Hext.
Qed.

Lemma ranked_users_rows_inv alias db σ row :
  row ∈ (execute (ranked_users_query alias) db σ).1 →
  ∃ g u0 r0,
    ranked_users_row g = Some row
    ∧ head g = Some (u0, r0)
    ∧ u0 ∈ users db
    ∧ r0 ∈ global_ranking db
    ∧ RankedBot.user_id r0 = User.id u0
    ∧ ∀ r, (∃ u, (u, r) ∈ g)
           ↔ r ∈ global_ranking db ∧ RankedBot.user_id r = User.id u0.
Proof.
  rewrite ranked_users_query_execute.
  intros (g & Hg & Hrow)%list_elem_of_omap.
  apply group_by_head in Hg as ([u0 r0] & Hhead & Hx & Heq).
  apply elem_of_join in Hx as (Hu0 & Hr0 & Hown0%owned_by_iff).
  exists g, u0, r0. split_and!; [done..|].
  intros r. rewrite Heq. split.
  - intros (u & [Hk Hin]%list_elem_of_filter). simpl in Hk.
    apply elem_of_join in Hin as (_ & Hr & Hown%owned_by_iff).
    split; [done|congruence].
  - intros [Hr Hid]. exists u0. apply list_elem_of_filter. split; [done|].
    apply elem_of_join. by rewrite owned_by_iff.
Qed.

(** Every user with a ranked bot has a row in [ranked_users_query]. *)
Lemma ranked_users_row_of_user alias db σ u r :
  u ∈ users db → r ∈ global_ranking db → RankedBot.user_id r = User.id u →
  ∃ row g,
    row ∈ (execute (ranked_users_query alias) db σ).1
    ∧ ranked_users_row g = Some row
    ∧ RankedUser.user_id row = User.id u
    ∧ ∀ r, (∃ u', (u', r) ∈ g)
           ↔ r ∈ global_ranking db ∧ RankedBot.user_id r = User.id u.
Proof.
  intros Hu Hr Hid. rewrite ranked_users_query_execute.
  set (from := join owned_by (users db) (global_ranking db)).
  assert (Hin : (u, r) ∈ from)
    by (apply elem_of_join; by rewrite owned_by_iff).
  assert (Hg : filter (λ a, (let '(u, _) := a in User.id u) = User.id u)
                 from ∈ group_by (λ '(u, _), User.id u) from)
    by (apply elem_of_group_by; by exists (u, r)).
  destruct (group_by_head _ _ _ Hg) as ([u1 r1] & Hhead & Hx & Heq).
  assert (User.id u1 = User.id u) as Hid1.
  { apply head_Some_elem_of in Hhead.
    by apply list_elem_of_filter in Hhead as [? _]. }
  eexists _, _. split_and!.
  - apply list_elem_of_omap. eexists. split; [exact Hg|].
    unfold ranked_users_row. rewrite Hhead. reflexivity.
  - unfold ranked_users_row. rewrite Hhead. reflexivity.
  - exact Hid1.
  - intros r'. split.
    + intros (u' & [Hk Hin']%list_elem_of_filter). simpl in Hk.
      apply elem_of_join in Hin' as (_ & Hr' & Hown%owned_by_iff).
      split; [done|congruence].
    + intros [Hr' Hid']. exists u. apply list_elem_of_filter.
      split; [done|]. apply elem_of_join. by rewrite owned_by_iff.
Qed.

(** Every user has a row in [all_users]. *)
Lemma all_users_row_of_user db σ u :
  u ∈ users db →
  ∃ row g,
    row ∈ (execute all_users db σ).1
    ∧ all_users_row g = Some row
    ∧ AllUsers.user_id row = User.id u
    ∧ ∀ r, (∃ u' o, (u', Some r, o) ∈ g)
           ↔ r ∈ global_ranking db ∧ RankedBot.user_id r = User.id u.
Proof.
  intros Hu. rewrite all_users_execute.
  set (from := outerjoin _ (outerjoin owned_by _ _) _).
  destruct (outerjoin_total owned_by (global_ranking db) u) as [r0 Hr0].
  destruct (outerjoin_total
              (λ '((u, _) : User.t * option RankedBot.t) o,
                 organization_of u o)
              (organizations db) (u, r0)) as [o0 Ho0].
  assert (Hin : (u, r0, o0) ∈ from)
    by (unfold from; rewrite elem_of_outerjoin, elem_of_outerjoin; done).
  assert (Hg : filter (λ a, (let '(u, _, _) := a in User.id u) = User.id u)
                 from ∈ group_by (λ '(u, _, _), User.id u) from)
    by (apply elem_of_group_by; by exists (u, r0, o0)).
  destruct (group_by_head _ _ _ Hg) as ([[u1 r1] o1] & Hhead & Hx & Heq).
  assert (User.id u1 = User.id u) as Hid1.
  { apply head_Some_elem_of in Hhead.
    by apply list_elem_of_filter in Hhead as [? _]. }
  eexists _, _. split_and!.
  - apply list_elem_of_omap. eexists. split; [exact Hg|].
    unfold all_users_row. rewrite Hhead. reflexivity.
  - unfold all_users_row. rewrite Hhead. reflexivity.
  - exact Hid1.
  - intros r. split.
    + intros (u' & o & [Hk Hin']%list_elem_of_filter). simpl in Hk.
      apply elem_of_all_users_from in Hin' as (_ & [Hr Hid] & _).
      split; [done|congruence].
    + intros [Hr Hid].
      destruct (outerjoin_total
                  (λ '((u, _) : User.t * option RankedBot.t) o,
                     organization_of u o)
                  (organizations db) (u, Some r)) as [o Ho].
      exists u, o. apply list_elem_of_filter. split; [done|].
      apply elem_of_all_users_from. done.
Qed.

(** X12: [ranked_users_query] and [all_users] agree: a user id is listed
    with rank [m] by the one exactly when it is listed with rank [m] by the
    other, so the ranked users are the users of the summary that have a
    rank, with the same rank. *)
Theorem ranked_users_match_all_users alias db σ σ' uid m :
  (∃ row, row ∈ (execute (ranked_users_query alias) db σ).1
        ∧ RankedUser.user_id row = uid ∧ RankedUser.rank row = Some m)
  ↔ (∃ s, s ∈ (execute all_users db σ').1
        ∧ AllUsers.user_id s = uid ∧ AllUsers.rank s = Some m).
Proof.
  split.
  - intros (row & Hrow & <- & Hm).
    apply ranked_users_rows_inv in Hrow
      as (g & u0 & r0 & Hrow & Hhead & Hu0 & _ & _ & Hg).
    unfold ranked_users_row in Hrow. rewrite Hhead in Hrow. simpl in Hrow.
    injection Hrow as <-. simpl in *.
    destruct (all_users_row_of_user db σ' u0 Hu0)
      as (s & g' & Hs & Hsrow & Hsid & Hg').
    exists s. split_and!; [done..|].
    unfold all_users_row in Hsrow.
    destruct (head g') as [[[u1 r1] o1]|]; [|done]. simpl in Hsrow.
    injection Hsrow as <-. simpl. rewrite <-Hm. apply min__ext. intros y.
    rewrite (all_users_column RankedBot.bot_rank g' _ y Hg').
    rewrite list_elem_of_fmap. split.
    + intros (r & Hr & Hy). apply Hg in Hr as [u Hu]. by exists (u, r).
    + intros ([u r] & Hy & Hin). exists r. split; [|done]. apply Hg. eauto.
  - intros (s & Hs & <- & Hm).
    apply all_users_rows_inv in Hs as (g & u0 & r0 & o0 & Hs & Hhead & Hu0 & Hg).
    unfold all_users_row in Hs. rewrite Hhead in Hs. simpl in Hs.
    injection Hs as <-. simpl in *.
    assert (Hin := Hm). apply min__Some in Hin as [Hin _].
    apply (all_users_column RankedBot.bot_rank g _ m Hg)
      in Hin as (r & [Hr Hid] & _).
    destruct (ranked_users_row_of_user alias db σ u0 r Hu0 Hr Hid)
      as (row & g' & Hrow & Hrrow & Hrid & Hg').
    exists row. split_and!; [done..|].
    unfold ranked_users_row in Hrrow.
    destruct (head g') as [[u1 r1]|]; [|done]. simpl in Hrrow.
    injection Hrrow as <-. simpl. rewrite <-Hm. apply min__ext. intros y.
    rewrite (all_users_column RankedBot.bot_rank g _ y Hg).
    rewrite list_elem_of_fmap. split.
    + intros ([u r'] & Hy & Hin). exists r'. split; [|done]. apply Hg'. eauto.
    + intros (r' & Hr' & Hy). apply Hg' in Hr' as [u Hu]. by exists (u, r').
Qed.

(** ** A hackathon without participants *)

Lemma join_nil_r {A B} (on : A → B → bool) (l : list A) :
  join on l [] = [].
Proof.
  apply elem_of_nil_inv. intros [a b] (_ & Hb & _)%elem_of_join.
  by apply not_elem_of_nil in Hb.
Qed.

(** X13: for a hackathon no participant is registered for, the local
    ranking is empty and leaves its counter at 0, and the composite of
    local and global rank is empty too. *)
Theorem hackathon_without_participants hid variable alias w db σ :
  (∀ p, p ∈ hackathon_participants db →
        HackathonParticipant.hackathon_id p ≠ hid) →
  (∃ q w', hackathon_ranked_bots_query hid variable alias w = (Return q, w')
     ∧ execute q db σ = ([], <[default "hrank" variable := 0]> σ))
  ∧ (∃ q w', hackathon_ranked_bots_users_query hid alias w = (Return q, w')
       ∧ (execute q db σ).1 = []).
Proof.
  intros Hnone.
  assert (Hjoin : join (participates hid) (bots db)
                    (hackathon_participants db) = []).
  { apply elem_of_nil_inv. intros [b p] (_ & Hp & Hon)%elem_of_join.
    apply participates_iff in Hon as ->. by apply (Hnone _ Hp). }
  assert (Hsorted : order_by_desc Bot.score
                      (join (participates hid) (bots db)
                         (hackathon_participants db)).*1 = []).
  { apply Permutation_nil_r. by rewrite order_by_desc_perm, Hjoin. }
  assert (Hlocal : local_ranking hid db = [])
    by (by rewrite local_ranking_unfold, Hsorted).
  split.
  - destruct (hackathon_ranked_bots_query_run hid variable alias w)
      as (q & Hrun & _ & Hexec).
    exists q, (printed (SqlText "temptable") w). split; [exact Hrun|].
    by rewrite Hexec, Hsorted, Hjoin.
  - destruct (hackathon_ranked_bots_users_query_run hid alias w)
      as (q & Hrun & Hexec).
    exists q, (printed (SqlText "temptable") w). split; [exact Hrun|].
    rewrite Hexec, Hlocal. unfold hackathon_ranked_bots_users_rows.
    by rewrite join_nil_r.
Qed.

Lemma hackathon_without_participants_sample :
  (∀ p, p ∈ hackathon_participants sample_db →
        HackathonParticipant.hackathon_id p ≠ 9)
  ∧ (∃ q w', hackathon_ranked_bots_query 9 None None sample_world
             = (Return q, w')
       ∧ execute q sample_db ∅ = ([], <[default "hrank" None := 0]> ∅))
  ∧ (∃ q w', hackathon_ranked_bots_users_query 9 None sample_world
             = (Return q, w')
       ∧ (execute q sample_db ∅).1 = []).
Proof.
  assert (Hnone : ∀ p, p ∈ hackathon_participants sample_db →
                       HackathonParticipant.hackathon_id p ≠ 9).
  { intros p Hp. simpl in Hp. repeat apply elem_of_cons in Hp as [->|Hp];
      [done..|]. by apply not_elem_of_nil in Hp. }
  split; [exact Hnone|].
  exact (hackathon_without_participants 9 None None sample_world
           sample_db ∅ Hnone).
Defined.

(** ** Every call of the replay accessor *)

Lemma getitem_cases {A} (l : list A) k w :
  (∃ a, a ∈ l ∧ getitem l k w = (Return a, w))
  ∨ getitem l k w = (Raise IndexError, w).
Proof.
  unfold getitem.
  destruct (_ && _); [|by right].
  destruct (l !! _) as [a|] eqn:Ha; [|by right].
  left. exists a. split; [|done]. apply list_elem_of_lookup. eauto.
Qed.

(** X14: whatever [kind] is, [get_replay_bucket] builds exactly one client,
    for the configured project, prints nothing and sends at most one bucket
    request; the bucket it returns or is refused is always one of the
    configured replay buckets, and without a request the failure is an
    [IndexError]. *)
Theorem get_replay_bucket_any_kind config kind w :
  let c := Storage.mk_client (Config.GCLOUD_PROJECT config)
             (length (clients w)) in
  let replays := Config.GCLOUD_REPLAY_BUCKETS config in
  let r := get_replay_bucket config kind w in
  stdout r.2 = stdout w
  ∧ remote_buckets r.2 = remote_buckets w
  ∧ clients r.2 = clients w ++ [c]
  ∧ match r.1 with
    | Return b =>
        Storage.name b ∈ replays ∧ Storage.name b ∈ remote_buckets w
        ∧ Storage.client b = c
        ∧ requests r.2 = requests w ++ [(c, Storage.name b)]
    | Raise IndexError => requests r.2 = requests w
    | Raise (NotFound name) =>
        name ∈ replays ∧ (name ∉ remote_buckets w)
        ∧ requests r.2 = requests w ++ [(c, name)]
    end.
Proof.
  intros c replays r. subst r.
  unfold get_replay_bucket, get_storage_client, mbind, py_bind, Client.
  simpl.
  match goal with
  | |- context [getitem ?l ?k ?w1] =>
      destruct (getitem_cases l k w1) as [(name & Hname & ->)| ->]
  end; [|done].
  unfold get_bucket. simpl. rewrite bool_decide_decide.
  destruct (decide (name ∈ remote_buckets w)); simpl; done.
Qed.
